(** * IEEE1275 platform initialisation of GRUB: heap claiming, boot location
      and bootargs import (grub-core/kern/ieee1275/init.c).

    The C functions are embedded as Rocq functions.  Fixed-width unsigned
    integers are [Z] with the wrap-around written out, the firmware and the
    other collaborators of init.c are explicit parameters, and the effects of
    the code (firmware claims, allocator regions, console output, environment
    writes) are threaded as explicit state. *)

From Stdlib Require Import ZArith List String Ascii Bool Lia Permutation.
Import ListNotations.
Local Open Scope Z_scope.

(** ** Heap claiming: heap_size, heap_init, grub_claim_heap *)

Module Heap.

(** [grub_uint64_t] and [grub_uint32_t] arithmetic. *)
Definition u64 (x : Z) : Z := x mod 2 ^ 64.
Definition u32 (x : Z) : Z := x mod 2 ^ 32.

(** The two targets that compile the two-pass allocator. *)
Inductive platform : Type := I386 | PowerPC.

Definition HEAP_MAX_SIZE (p : platform) : Z :=
  match p with
  | I386 => 64 * 1024 * 1024
  | PowerPC => 1 * 1024 * 1024 * 1024
  end.

(** Modelled from the spec: the enumeration grub_memory_type_t of
    grub/memory.h is not part of the sources at hand.  An extent is tagged
    Available or Reserved; the static-window call of grub_claim_heap passes
    the literal 1 for an extent that goes through the claim steps, so
    Available is 1. *)
Definition GRUB_MEMORY_AVAILABLE : Z := 1.
Definition GRUB_MEMORY_RESERVED : Z := 2.

(** Modelled from the spec: grub_addr_t is declared in grub/types.h, absent
    here.  Both targets have 32-bit pointers, so the cast keeps the low 32
    bits. *)
Definition grub_addr_t (x : Z) : Z := u32 x.

(** One call of grub_claimmap: address, length, returned error code. *)
Definition claim_call : Type := (Z * Z * Z)%type.

(** What init.c takes from its environment when it claims the heap: the
    target, the linker symbols _start and _end, the firmware flags, the
    static heap window, and the firmware claim service grub_claimmap, which
    gets the address and the length as heap_init passes them and returns an
    error code, 0 for success.  It may answer by the history of the calls
    made so far. *)
Record Firmware : Type := mkFirmware {
  plat : platform;
  _start : Z;
  _end : Z;
  FLAG_NO_PRE1_5M_CLAIM : bool;
  FLAG_FORCE_CLAIM : bool;
  GRUB_IEEE1275_STATIC_HEAP_START : Z;
  GRUB_IEEE1275_STATIC_HEAP_LEN : Z;
  grub_claimmap : list claim_call -> Z -> Z -> Z
}.

(** The effects of the claim code: every grub_claimmap call with its result,
    every region handed to grub_mm_init_region, and the console output. *)
Record Machine : Type := mkMachine {
  claim_log : list claim_call;
  regions : list (Z * Z);
  console : list string
}.

Definition empty_machine : Machine := mkMachine [] [] [].

Definition grub_printf (s : string) (m : Machine) : Machine :=
  mkMachine (claim_log m) (regions m) (console m ++ [s]).

Definition record_claim (addr len err : Z) (m : Machine) : Machine :=
  mkMachine (claim_log m ++ [(addr, len, err)]) (regions m) (console m).

Definition grub_mm_init_region (addr len : Z) (m : Machine) : Machine :=
  mkMachine (claim_log m) (regions m ++ [(addr, len)]) (console m).

Definition overlap_warning : string :=
  "Warning: attempt to claim over our own code!" ++ String (ascii_of_nat 10) "".

(** A firmware-reported memory extent. *)
Record Extent : Type := mkExtent {
  e_addr : Z;
  e_len : Z;
  e_type : Z
}.

(** The type of a memory-map visitor: address, length, type, the 32-bit
    total behind the data pointer and the machine; it returns its int
    result, the new total and the new machine. *)
Definition hook_t : Type := Z -> Z -> Z -> Z -> Machine -> Z * Z * Machine.

(** heap_size: the visitor of the size pass. *)
Definition heap_size (addr len type : Z) (data : Z) (m : Machine)
  : Z * Z * Machine :=
  let total := data in
  if negb (type =? GRUB_MEMORY_AVAILABLE) then (0, data, m)
  else if addr >? 0xffffffff then (0, data, m)
  else
    let len :=
      if u64 (addr + len) >? 0xffffffff then u64 (0xffffffff - addr) else len in
    let total := u32 (total + len) in
    (0, total, m).

(** heap_init: the visitor of the claim pass. *)
Definition heap_init (fw : Firmware) (addr len type : Z) (data : Z)
  (m : Machine) : Z * Z * Machine :=
  let total := data in
  if negb (type =? GRUB_MEMORY_AVAILABLE) then (0, data, m)
  else if addr >? 0xffffffff then (0, data, m)
  else
    let len :=
      if u64 (addr + len) >? 0xffffffff then u64 (0xffffffff - addr) else len in
    if FLAG_NO_PRE1_5M_CLAIM fw && (u64 (addr + len) <=? 0x180000)
    then (0, data, m)
    else
      let '(addr, len) :=
        if FLAG_NO_PRE1_5M_CLAIM fw && (addr <? 0x180000)
        then (0x180000, u64 (u64 (addr + len) - 0x180000))
        else (addr, len) in
      let len := u64 (len - 1) in
      let '(len, m) :=
        if (addr <? grub_addr_t (_end fw))
           && (u64 (addr + len) >? grub_addr_t (_start fw))
        then (0, grub_printf overlap_warning m)
        else (len, m) in
      let '(addr, len) :=
        if (addr <? 0x30000000) && (u64 (addr + len) >? 0x30000000)
        then (0x30000000, u64 (len - u64 (0x30000000 - addr)))
        else (addr, len) in
      let len := if len >? total then total else len in
      if negb (len =? 0) then
        let err := grub_claimmap fw (claim_log m) addr len in
        let m := record_claim addr len err m in
        if negb (err =? 0) then (err, data, m)
        else
          let m := grub_mm_init_region (grub_addr_t addr) len m in
          let total := u32 (total - len) in
          (if total =? 0 then 1 else 0, total, m)
      else (if total =? 0 then 1 else 0, total, m).

(** Modelled from the spec: grub_machine_mmap_iterate lives in
    kern/ieee1275/mmap.c, absent here.  It calls the visitor once per
    firmware-reported extent, in the firmware's order, until the map is
    exhausted or the visitor returns non-zero.  Besides the final total and
    machine the model returns the extents that were never visited. *)
Fixpoint grub_machine_mmap_iterate (hook : hook_t) (mmap : list Extent)
  (data : Z) (m : Machine) : Z * Machine * list Extent :=
  match mmap with
  | [] => (data, m, [])
  | e :: rest =>
      let '(ret, data', m') := hook (e_addr e) (e_len e) (e_type e) data m in
      if ret =? 0 then grub_machine_mmap_iterate hook rest data' m'
      else (data', m', rest)
  end.

(** grub_claim_heap (the i386 and powerpc version).  It returns nothing. *)
Definition grub_claim_heap (fw : Firmware) (mmap : list Extent) (m : Machine)
  : unit * Machine :=
  let total := 0 in
  if FLAG_FORCE_CLAIM fw then
    let '(_, _, m) :=
      heap_init fw (GRUB_IEEE1275_STATIC_HEAP_START fw)
                (GRUB_IEEE1275_STATIC_HEAP_LEN fw) 1 total m in
    (tt, m)
  else
    let '(total, m, _) := grub_machine_mmap_iterate heap_size mmap total m in
    let total := total / 4 in
    let total :=
      if total >? HEAP_MAX_SIZE (plat fw) then HEAP_MAX_SIZE (plat fw)
      else total in
    let '(_, m, _) := grub_machine_mmap_iterate (heap_init fw) mmap total m in
    (tt, m).

(** *** Notions used to state the properties of the claim code *)

(** Total length of the regions handed to the allocator. *)
Definition registered (m : Machine) : Z :=
  fold_right (fun r acc => snd r + acc) 0 (regions m).

Definition claim_ok (c : claim_call) : bool := snd c =? 0.

(** Total length of the firmware claims that succeeded. *)
Definition claimed (m : Machine) : Z :=
  fold_right (fun c acc => snd (fst c) + acc) 0 (filter claim_ok (claim_log m)).

(** [continues hook mmap data m = Some (data', m')]: the visitor was called
    on every extent of [mmap], returned 0 each time, and left [data'] and
    [m']. *)
Fixpoint continues (hook : hook_t) (mmap : list Extent) (data : Z)
  (m : Machine) : option (Z * Machine) :=
  match mmap with
  | [] => Some (data, m)
  | e :: rest =>
      let '(ret, data', m') := hook (e_addr e) (e_len e) (e_type e) data m in
      if ret =? 0 then continues hook rest data' m' else None
  end.

(** The raw total of the size pass over a map. *)
Definition raw_total (mmap : list Extent) : Z :=
  fst (fst (grub_machine_mmap_iterate heap_size mmap 0 empty_machine)).

(** The budget that grub_claim_heap derives from the raw total: a quarter
    of it, capped by HEAP_MAX_SIZE. *)
Definition claim_budget (fw : Firmware) (mmap : list Extent) : Z :=
  Z.min (raw_total mmap / 4) (HEAP_MAX_SIZE (plat fw)).

(** The extent that heap_init has in hand when it reaches the test against
    its own image: after the clip at 0xffffffff, the low-memory trim and the
    decrement of the length.  [None] when the visitor has returned before. *)
Definition trimmed (fw : Firmware) (addr len : Z) : option (Z * Z) :=
  if addr >? 0xffffffff then None
  else
    let len :=
      if u64 (addr + len) >? 0xffffffff then u64 (0xffffffff - addr) else len in
    if FLAG_NO_PRE1_5M_CLAIM fw && (u64 (addr + len) <=? 0x180000) then None
    else
      let '(addr, len) :=
        if FLAG_NO_PRE1_5M_CLAIM fw && (addr <? 0x180000)
        then (0x180000, u64 (u64 (addr + len) - 0x180000))
        else (addr, len) in
      Some (addr, u64 (len - 1)).

(** The test of heap_init against the image of GRUB itself, on the extent
    in hand: the new length and machine. *)
Definition own_image_guard (fw : Firmware) (addr len : Z) (m : Machine)
  : Z * Machine :=
  if (addr <? grub_addr_t (_end fw))
     && (u64 (addr + len) >? grub_addr_t (_start fw))
  then (0, grub_printf overlap_warning m)
  else (len, m).

(** The trim of heap_init at 0x30000000. *)
Definition linux_window_guard (addr len : Z) : Z * Z :=
  if (addr <? 0x30000000) && (u64 (addr + len) >? 0x30000000)
  then (0x30000000, u64 (len - u64 (0x30000000 - addr)))
  else (addr, len).

(** The end of heap_init: the clip to the total, the claim, the
    registration and the result. *)
Definition claim_and_use (fw : Firmware) (addr len total : Z) (m : Machine)
  : Z * Z * Machine :=
  let len := if len >? total then total else len in
  if negb (len =? 0) then
    let err := grub_claimmap fw (claim_log m) addr len in
    let m := record_claim addr len err m in
    if negb (err =? 0) then (err, total, m)
    else
      let m := grub_mm_init_region (grub_addr_t addr) len m in
      let total := u32 (total - len) in
      (if total =? 0 then 1 else 0, total, m)
  else (if total =? 0 then 1 else 0, total, m).

(** heap_init read as a chain of its stages (see [heap_init_stages]). *)
Definition heap_init_staged (fw : Firmware) (addr len type total : Z)
  (m : Machine) : Z * Z * Machine :=
  if negb (type =? GRUB_MEMORY_AVAILABLE) then (0, total, m)
  else
    match trimmed fw addr len with
    | None => (0, total, m)
    | Some (addr, len) =>
        let '(len, m) := own_image_guard fw addr len m in
        let '(addr, len) := linux_window_guard addr len in
        claim_and_use fw addr len total m
    end.

(** The half-open ranges [addr, addr + len) and [_start, _end) meet. *)
Definition intersects_image (fw : Firmware) (addr len : Z) : Prop :=
  exists x, addr <= x < addr + len /\ _start fw <= x < _end fw.

(** The three ways a call of heap_init can end, from the total [total] and
    the machine [m]: nothing is claimed, a claim is granted, or a claim is
    refused.  The indices are the int result, the new total and the new
    machine. *)
Inductive visit (fw : Firmware) (total : Z) (m : Machine)
  : Z -> Z -> Machine -> Prop :=
| visit_skip r m' :
    claim_log m' = claim_log m -> regions m' = regions m ->
    r = 0 \/ (r = 1 /\ total = 0) ->
    visit fw total m r total m'
| visit_claim a l m' :
    0 < l <= total ->
    grub_claimmap fw (claim_log m) a l = 0 ->
    claim_log m' = claim_log m ++ [(a, l, 0)] ->
    regions m' = regions m ++ [(grub_addr_t a, l)] ->
    visit fw total m (if total - l =? 0 then 1 else 0) (total - l) m'
| visit_fail a l err m' :
    0 < l <= total -> err <> 0 ->
    grub_claimmap fw (claim_log m) a l = err ->
    claim_log m' = claim_log m ++ [(a, l, err)] ->
    regions m' = regions m ->
    visit fw total m err total m'.

(** *** Sample firmware *)

Definition claim_always (err : Z) : list claim_call -> Z -> Z -> Z :=
  fun _ _ _ => err.

(** A powerpc machine whose image occupies [0x200000, 0x400000) and whose
    firmware grants every claim. *)
Definition fw_ok : Firmware :=
  mkFirmware PowerPC 0x200000 0x400000 false false 0x1000000 0x1000000
             (claim_always 0).

(** The same machine with a firmware that refuses every claim. *)
Definition fw_refusing : Firmware :=
  mkFirmware PowerPC 0x200000 0x400000 false false 0x1000000 0x1000000
             (claim_always (-1)).

(** The same machine with the static-heap flag set. *)
Definition fw_static : Firmware :=
  mkFirmware PowerPC 0x200000 0x400000 false true 0x1000000 0x1000000
             (claim_always 0).

(** A firmware that grants the first claim and refuses the later ones. *)
Definition fw_second_fails : Firmware :=
  mkFirmware PowerPC 0x200000 0x400000 false false 0x1000000 0x1000000
             (fun log _ _ => match log with [] => 0 | _ => -1 end).

(** *** Notions used to state further properties of the claim code *)

(** An extent as the firmware reports it: a non-negative address, at least
    one byte, and an end that does not wrap around 2^64. *)
Definition sane_extent (e : Extent) : Prop :=
  0 <= e_addr e /\ 1 <= e_len e /\ e_addr e + e_len e < 2 ^ 64.

(** What one extent adds to the total of the size pass, before the
    truncation to 32 bits. *)
Definition counted (e : Extent) : Z :=
  if negb (e_type e =? GRUB_MEMORY_AVAILABLE) then 0
  else if e_addr e >? 0xffffffff then 0
  else if u64 (e_addr e + e_len e) >? 0xffffffff
       then u64 (0xffffffff - e_addr e)
       else e_len e.

Definition sum_counted (mmap : list Extent) : Z :=
  fold_right (fun e acc => counted e + acc) 0 mmap.

(** The address and length of the claims that the firmware granted. *)
Definition granted (log : list claim_call) : list (Z * Z) :=
  map fst (filter claim_ok log).

(** The range of a claim call holds no byte of the image of GRUB. *)
Definition clear_of_image (fw : Firmware) (c : claim_call) : Prop :=
  forall x, fst (fst c) <= x < fst (fst c) + snd (fst c) ->
            ~ (grub_addr_t (_start fw) <= x < grub_addr_t (_end fw)).

(** The range of a claim call does not reach across 0x30000000. *)
Definition clear_of_linux_window (c : claim_call) : Prop :=
  ~ (fst (fst c) < 0x30000000 /\ 0x30000000 < fst (fst c) + snd (fst c)).

(** The range of a claim call lies inside an extent and ends below
    0xffffffff. *)
Definition inside_extent (e : Extent) (c : claim_call) : Prop :=
  e_addr e <= fst (fst c)
  /\ fst (fst c) + snd (fst c) < e_addr e + e_len e
  /\ fst (fst c) + snd (fst c) < 0xffffffff.

(** What the claim calls of a pass are shown to satisfy, given the map and
    the total that the pass starts from: a positive length within the
    total, a range clear of the image and of the window at 0x30000000, an
    address at or above 0x180000 under the low-memory flag, and an
    Available extent of the map that (unless it sits at 0xffffffff) holds
    the range. *)
Definition lawful (fw : Firmware) (mmap : list Extent) (total : Z)
  (c : claim_call) : Prop :=
  0 < snd (fst c) <= total
  /\ clear_of_image fw c
  /\ clear_of_linux_window c
  /\ (FLAG_NO_PRE1_5M_CLAIM fw = true -> 0x180000 <= fst (fst c))
  /\ exists e, In e mmap /\ e_type e = GRUB_MEMORY_AVAILABLE
               /\ (e_addr e <> 0xffffffff -> inside_extent e c).

(** A machine with the low-memory flag set, otherwise as [fw_ok]. *)
Definition fw_low_memory : Firmware :=
  mkFirmware PowerPC 0x200000 0x400000 true false 0x1000000 0x1000000
             (claim_always 0).

(** A sample memory map: a reserved extent, an extent that holds the image,
    one that reaches across 0x180000, and one across 0x30000000. *)
Definition sample_map : list Extent :=
  [mkExtent 0x0 0x4000 GRUB_MEMORY_RESERVED;
   mkExtent 0x200000 0x200000 GRUB_MEMORY_AVAILABLE;
   mkExtent 0x100000 0x100000 GRUB_MEMORY_AVAILABLE;
   mkExtent 0x20000000 0x20000000 GRUB_MEMORY_AVAILABLE].

End Heap.

(** ** Boot location: grub_translate_ieee1275_path and
       grub_machine_get_bootlocation *)

Module Boot.

Local Open Scope char_scope.

(** A C string is modelled by the characters before its terminator. *)

(** Modelled from the spec: grub_strchr of grub/misc.h, the offset of the
    first occurrence of a (non-NUL) character, if any. *)
Fixpoint grub_strchr (s : string) (c : ascii) : option nat :=
  match s with
  | EmptyString => None
  | String a r =>
      if Ascii.eqb a c then Some O
      else match grub_strchr r c with
           | Some k => Some (S k)
           | None => None
           end
  end.

(** Modelled from the spec: grub_strrchr of grub/misc.h, the offset of the
    last occurrence of a (non-NUL) character, if any. *)
Fixpoint grub_strrchr (s : string) (c : ascii) : option nat :=
  match s with
  | EmptyString => None
  | String a r =>
      match grub_strrchr r c with
      | Some k => Some (S k)
      | None => if Ascii.eqb a c then Some O else None
      end
  end.

(** Store the character c, other than NUL, at offset k of s. *)
Fixpoint poke (s : string) (k : nat) (c : ascii) : string :=
  match s, k with
  | EmptyString, _ => EmptyString
  | String _ r, O => String c r
  | String a r, S k' => String a (poke r k' c)
  end.

(** Store NUL at offset k of s: the string now ends there. *)
Definition terminate_at (s : string) (k : nat) : string := substring 0 k s.

(** The loop of grub_translate_ieee1275_path: find the first backslash from
    the start of the string, overwrite it, search again. *)
Fixpoint translate_loop (fuel : nat) (filepath : string) : string :=
  match grub_strchr filepath "\" with
  | None => filepath
  | Some backslash =>
      match fuel with
      | O => filepath
      | S fuel' => translate_loop fuel' (poke filepath backslash "/")
      end
  end.

(** Every round removes one backslash, so the length of the string bounds
    the number of rounds (see [translate_loop_enough]). *)
Definition grub_translate_ieee1275_path (filepath : string) : string :=
  translate_loop (String.length filepath) filepath.

(** The out-parameters [*device] and [*path]; [None] is an unset pointer. *)
Record Location : Type := mkLocation {
  device : option string;
  path : option string
}.

(** The network-configuration callback: it receives the device name, the
    two out-parameters, which it may write, and the boot path. *)
Definition net_config_t : Type := string -> Location -> string -> Location.

(** The firmware helpers that grub_machine_get_bootlocation calls, and the
    callback pointer grub_ieee1275_net_config ([None] when unset).  A helper
    that returns a null pointer returns [None]. *)
Record Firmware : Type := mkFirmware {
  grub_ieee1275_get_boot_dev : option string;
  grub_ieee1275_get_device_type : string -> option string;
  grub_ieee1275_get_aliasdevname : string -> option string;
  grub_ieee1275_canonicalise_devname : option string -> option string;
  grub_ieee1275_get_filename : string -> option string;
  grub_ieee1275_encode_devname : string -> option string;
  grub_ieee1275_net_config : option net_config_t
}.

(** The result of the resolver: the out-parameters, and the arguments of
    every call of the network callback. *)
Record Resolved : Type := mkResolved {
  loc : Location;
  net_config_calls : list (string * string)
}.

Definition is_separator (c : ascii) : bool :=
  Ascii.eqb c "," || Ascii.eqb c ":".

(** The loop that moves ptr down while it is above canon and points at a
    comma or a colon; ptr is an offset into canon. *)
Fixpoint strip_loop (canon : string) (ptr : nat) : nat :=
  match ptr with
  | O => O
  | S ptr' =>
      match String.get ptr canon with
      | Some c => if is_separator c then strip_loop canon ptr' else ptr
      | None => ptr
      end
  end.

(** The pointer walk on the canonical name in the network branch. *)
Definition strip_canon (canon : string) : string :=
  let ptr := (Z.of_nat (String.length canon) - 1)%Z in
  let ptr :=
    if (ptr >? 0)%Z then Z.of_nat (strip_loop canon (Z.to_nat ptr)) else ptr in
  let ptr := (ptr + 1)%Z in
  terminate_at canon (Z.to_nat ptr).

Definition grub_machine_get_bootlocation (fw : Firmware) (out : Location)
  : Resolved :=
  match grub_ieee1275_get_boot_dev fw with
  | None => mkResolved out []
  | Some bootpath =>
      let type := grub_ieee1275_get_device_type fw bootpath in
      if match type with
         | Some t => String.eqb t "network"
         | None => false
         end
      then
        let dev := grub_ieee1275_get_aliasdevname fw bootpath in
        match grub_ieee1275_canonicalise_devname fw dev with
        | None => mkResolved out []
        | Some canon =>
            let canon := strip_canon canon in
            match grub_ieee1275_net_config fw with
            | Some net_config =>
                mkResolved (net_config canon out bootpath) [(canon, bootpath)]
            | None => mkResolved out []
            end
        end
      else
        let out :=
          match grub_ieee1275_get_filename fw bootpath with
          | Some filename =>
              match grub_strrchr filename "\" with
              | Some lastslash =>
                  let filename := terminate_at filename lastslash in
                  let filename := grub_translate_ieee1275_path filename in
                  mkLocation (device out) (Some filename)
              | None => out
              end
          | None => out
          end in
        mkResolved
          (mkLocation (grub_ieee1275_encode_devname fw bootpath) (path out)) []
  end.

(** *** Notions used to state the properties of the resolver *)

(** The translation read as a map over the characters: every backslash
    becomes a forward slash. *)
Fixpoint replace_backslashes (s : string) : string :=
  match s with
  | EmptyString => EmptyString
  | String a r =>
      String (if Ascii.eqb a "\" then "/" else a) (replace_backslashes r)
  end.

(** *** Sample firmware *)

(** A network callback that writes both out-parameters. *)
Definition sample_net_config : net_config_t :=
  fun dev _ bootpath => mkLocation (Some dev) (Some bootpath).

(** A disk boot whose firmware file name is given. *)
Definition fw_disk (filename : option string) : Firmware :=
  mkFirmware (Some "/pci/scsi/disk@0:2,\boot\grub\x"%string)
             (fun _ => Some "block"%string)
             (fun _ => None)
             (fun _ => None)
             (fun _ => filename)
             (fun _ => Some "ieee1275/disk"%string)
             None.

(** A network boot whose canonical device name is given. *)
Definition fw_net (canon : string) : Firmware :=
  mkFirmware (Some "net:10.0.0.1"%string)
             (fun _ => Some "network"%string)
             (fun _ => Some "net"%string)
             (fun _ => Some canon)
             (fun _ => None)
             (fun _ => Some "ieee1275/net"%string)
             (Some sample_net_config).

Definition unset : Location := mkLocation None None.

End Boot.

(** ** Command-line import: grub_parse_cmdline *)

Module Cmdline.

Local Open Scope char_scope.

(** The outcome of code that reads a fixed buffer: a value, an access
    outside the buffer (undefined in C), or a loop that outran its fuel. *)
Inductive outcome (A : Type) : Type :=
| Done (a : A)
| OutOfBounds
| OutOfFuel.
Arguments Done {A} a.
Arguments OutOfBounds {A}.
Arguments OutOfFuel {A}.

Definition NUL : ascii := "000".

(** Modelled from the spec: grub_isspace of grub/misc.h. *)
Definition grub_isspace (c : ascii) : bool :=
  Ascii.eqb c (ascii_of_nat 10) || Ascii.eqb c (ascii_of_nat 13)
  || Ascii.eqb c " " || Ascii.eqb c (ascii_of_nat 9).

(** Modelled from the spec: grub_strchr of grub/misc.h on a buffer.  It
    scans [l], the bytes from offset [k] on, for the character [c] up to the
    terminator; [None] is an access past the end of the buffer. *)
Fixpoint scan (l : list ascii) (c : ascii) (k : nat) : option (option nat) :=
  match l with
  | [] => None
  | a :: r =>
      if Ascii.eqb a c then Some (Some k)
      else if Ascii.eqb a NUL then Some None
      else scan r c (S k)
  end.

Definition grub_strchr (args : list ascii) (from : nat) (c : ascii)
  : option (option nat) :=
  scan (skipn from args) c from.

(** [while (grub_isspace (args[i])) i++;] on the bytes from offset [i]. *)
Fixpoint skip_space (l : list ascii) (i : nat) : option nat :=
  match l with
  | [] => None
  | a :: r => if grub_isspace a then skip_space r (S i) else Some i
  end.

(** The C string that starts at the head of [l]. *)
Fixpoint cstring (l : list ascii) : option string :=
  match l with
  | [] => None
  | a :: r =>
      if Ascii.eqb a NUL then Some EmptyString
      else match cstring r with
           | Some s => Some (String a s)
           | None => None
           end
  end.

Definition cstring_at (args : list ascii) (from : nat) : option string :=
  cstring (skipn from args).

(** [args[k] = c] for an offset inside the buffer. *)
Fixpoint store (args : list ascii) (k : nat) (c : ascii) : list ascii :=
  match args, k with
  | [], _ => []
  | _ :: r, O => c :: r
  | a :: r, S k' => a :: store r k' c
  end.

(** The environment store, as the sequence of grub_env_set calls. *)
Definition Env : Type := list (string * string).

Definition grub_env_set (name val : string) (env : Env) : Env :=
  env ++ [(name, val)].

(** The body of [while (i < actual)]. *)
Fixpoint parse_loop (fuel : nat) (args : list ascii) (actual : Z) (i : nat)
  (env : Env) : outcome Env :=
  if (Z.of_nat i <? actual)%Z then
    match fuel with
    | O => OutOfFuel
    | S fuel' =>
        let command := i in
        match grub_strchr args command ";" with
        | None => OutOfBounds
        | Some end_ =>
            match
              match end_ with
              | None => Some (args, Z.to_nat actual)
              | Some e =>
                  let args := store args e NUL in
                  let i := (i + (e - command) + 1)%nat in
                  match skip_space (skipn i args) i with
                  | Some i => Some (args, i)
                  | None => None
                  end
              end
            with
            | None => OutOfBounds
            | Some (args, i) =>
                match grub_strchr args command "=" with
                | None => OutOfBounds
                | Some None => parse_loop fuel' args actual i env
                | Some (Some val) =>
                    let args := store args val NUL in
                    match cstring_at args command, cstring_at args (S val) with
                    | Some name, Some value =>
                        parse_loop fuel' args actual i
                                   (grub_env_set name value env)
                    | _, _ => OutOfBounds
                    end
                end
            end
        end
    end
  else Done env.

(** The answer of grub_ieee1275_get_property for "bootargs": [None] when the
    call fails, else the contents of the array [args] after the call and the
    reported length [actual]. *)
Definition bootargs_t : Type := option (list ascii * Z).

(** Every round advances [i] by at least one, so [actual] rounds are enough
    (see [parse_loop_enough]). *)
Definition grub_parse_cmdline (bootargs : bootargs_t) (env : Env)
  : outcome Env :=
  match bootargs with
  | Some (args, actual) =>
      if (actual >? 1)%Z then parse_loop (Z.to_nat actual) args actual 0 env
      else Done env
  | None => Done env
  end.

(** *** Notions used to state the properties of the importer *)

(** The array [args] when it holds the C string [s], its terminator, and
    then the bytes [rest]. *)
Definition buffer_of (s : string) (rest : list ascii) : list ascii :=
  list_ascii_of_string s ++ NUL :: rest.

(** A character of a token that holds no delimiter and no equals sign. *)
Definition plain_char (a : ascii) : Prop :=
  a <> ";" /\ a <> "=" /\ a <> NUL.

(** *** The import, read as a function of the bootargs line *)

(** A segment of the line: the characters between two semicolons. *)
Definition segment_char (a : ascii) : Prop := a <> ";" /\ a <> NUL.

(** The line made of a first segment and of further segments, each behind
    a semicolon. *)
Definition join_tail (rest : list (list ascii)) : list ascii :=
  flat_map (fun s => ";" :: s) rest.

(** A segment without its leading white space. *)
Fixpoint lstrip (l : list ascii) : list ascii :=
  match l with
  | [] => []
  | a :: r => if grub_isspace a then lstrip r else l
  end.

(** A segment cut at its first equals sign. *)
Fixpoint split_eq (l : list ascii) : option (list ascii * list ascii) :=
  match l with
  | [] => None
  | a :: r =>
      if Ascii.eqb a "=" then Some ([], r)
      else match split_eq r with
           | Some (k, v) => Some (a :: k, v)
           | None => None
           end
  end.

(** The variable that a segment sets, if it holds an equals sign. *)
Definition assignment (l : list ascii) : list (string * string) :=
  match split_eq l with
  | Some (k, v) => [(string_of_list_ascii k, string_of_list_ascii v)]
  | None => []
  end.

(** The variables that a line sets, in order: the first segment as it is,
    the later ones without their leading white space. *)
Definition imported (seg : list ascii) (rest : list (list ascii))
  : list (string * string) :=
  assignment seg ++ flat_map (fun s => assignment (lstrip s)) rest.

End Cmdline.

(** ** Secure boot and the init sequence: grub_get_ieee1275_secure_boot,
       grub_machine_init *)

Module Init.

(** grub_get_ieee1275_secure_boot.  The firmware is asked for the root
    node and for its property ibm,secure-boot; [probe] is the int result rc
    of the property read and the contents of the 32-bit variable is_sb
    after it. *)
Definition grub_get_ieee1275_secure_boot (probe : Z * Z) (env : Cmdline.Env)
  : Cmdline.Env :=
  let '(rc, is_sb) := probe in
  if (rc >=? 0) && (is_sb >=? 2)
  then Cmdline.grub_env_set "check_appended_signatures"%string
                            "forced"%string env
  else env.

(** The collaborators that grub_machine_init calls, as they appear in the
    log of the calls. *)
Inductive collaborator : Type :=
| grub_ieee1275_init
| grub_console_init_early
| grub_console_init_lately
| grub_ofdisk_init
| grub_tsc_init
| grub_install_get_time_ms.

(** What grub_machine_init takes from the machine: the firmware of the
    heap claim and its memory map, the answer to the bootargs read, the
    answer to the secure-boot probe, and the macro ALIGN_UP with the two
    constants of the module area. *)
Record World : Type := mkWorld {
  firmware : Heap.Firmware;
  memory_map : list Heap.Extent;
  bootargs : Cmdline.bootargs_t;
  secure_boot : Z * Z;
  ALIGN_UP : Z -> Z -> Z;
  GRUB_KERNEL_MACHINE_MOD_GAP : Z;
  GRUB_KERNEL_MACHINE_MOD_ALIGN : Z
}.

(** The state that grub_machine_init builds. *)
Record Booted : Type := mkBooted {
  grub_modbase : Z;
  heap : Heap.Machine;
  env : Cmdline.Env;
  calls : list collaborator
}.

(** grub_machine_init, from the heap machine and the environment it finds.
    The outcome is that of grub_parse_cmdline when it reads outside its
    buffer. *)
Definition grub_machine_init (w : World) (m : Heap.Machine)
  (env0 : Cmdline.Env) : Cmdline.outcome Booted :=
  let grub_modbase :=
    ALIGN_UP w
      (Heap.grub_addr_t
         (Heap.grub_addr_t (Heap._end (firmware w))
          + GRUB_KERNEL_MACHINE_MOD_GAP w))
      (GRUB_KERNEL_MACHINE_MOD_ALIGN w) in
  let calls := [grub_ieee1275_init] in
  let calls := calls ++ [grub_console_init_early] in
  let '(_, m) := Heap.grub_claim_heap (firmware w) (memory_map w) m in
  let calls := calls ++ [grub_console_init_lately] in
  let calls := calls ++ [grub_ofdisk_init] in
  match Cmdline.grub_parse_cmdline (bootargs w) env0 with
  | Cmdline.Done env =>
      let calls :=
        calls ++ [match Heap.plat (firmware w) with
                  | Heap.I386 => grub_tsc_init
                  | Heap.PowerPC => grub_install_get_time_ms
                  end] in
      let env := grub_get_ieee1275_secure_boot (secure_boot w) env in
      Cmdline.Done (mkBooted grub_modbase m env calls)
  | Cmdline.OutOfBounds => Cmdline.OutOfBounds
  | Cmdline.OutOfFuel => Cmdline.OutOfFuel
  end.

(** A powerpc machine that boots with the sample memory map and the given
    bootargs line and secure-boot level. *)
Definition sample_world (line : string) (level : Z) : World :=
  mkWorld Heap.fw_ok Heap.sample_map
          (Some (Cmdline.buffer_of line [],
                 (Z.of_nat (String.length line) + 1)%Z))
          (0, level)
          (fun addr align => Z.land (addr + align - 1) (Z.lnot (align - 1)))
          0x8000 0x1000.

End Init.

(** * Properties *)

(** ** The heap claim *)

Module HeapFacts.
Import Heap.

(** *** Wrap-around arithmetic *)

Lemma u64_range (x : Z) : 0 <= u64 x < 2 ^ 64.
Proof. unfold u64. apply Z.mod_pos_bound. lia. Qed.

Lemma u32_range (x : Z) : 0 <= u32 x < 2 ^ 32.
Proof. unfold u32. apply Z.mod_pos_bound. lia. Qed.

Lemma u64_small (x : Z) : 0 <= x < 2 ^ 64 -> u64 x = x.
Proof. intros H. unfold u64. now apply Z.mod_small. Qed.

Lemma u32_small (x : Z) : 0 <= x < 2 ^ 32 -> u32 x = x.
Proof. intros H. unfold u32. now apply Z.mod_small. Qed.

(** Turn the boolean tests of the code into arithmetic facts. *)
Ltac b2p :=
  repeat match goal with
  | H : negb _ = true |- _ => apply negb_true_iff in H
  | H : negb _ = false |- _ => apply negb_false_iff in H
  | H : (_ && _)%bool = true |- _ => apply andb_true_iff in H; destruct H
  | H : (_ =? _) = true |- _ => apply Z.eqb_eq in H
  | H : (_ =? _) = false |- _ => apply Z.eqb_neq in H
  | H : (_ <? _) = true |- _ => apply Z.ltb_lt in H
  | H : (_ <? _) = false |- _ => apply Z.ltb_ge in H
  | H : (_ <=? _) = true |- _ => apply Z.leb_le in H
  | H : (_ <=? _) = false |- _ => apply Z.leb_gt in H
  | H : (_ >? _) = true |- _ => rewrite Z.gtb_ltb in H
  | H : (_ >? _) = false |- _ => rewrite Z.gtb_ltb in H
  end.

(** *** heap_init, stage by stage *)

(** heap_init is the chain of its stages. *)
Lemma heap_init_stages fw addr len type total m :
  heap_init fw addr len type total m = heap_init_staged fw addr len type total m.
Proof.
  unfold heap_init, heap_init_staged, trimmed.
  destruct (negb (type =? GRUB_MEMORY_AVAILABLE)); [reflexivity|].
  destruct (addr >? 4294967295); [reflexivity|].
  cbv zeta.
  destruct (FLAG_NO_PRE1_5M_CLAIM fw && _); [reflexivity|].
  destruct (FLAG_NO_PRE1_5M_CLAIM fw && _); reflexivity.
Qed.

Lemma claim_and_use_visit fw addr len total m r t' m' :
  0 <= len -> 0 <= total < 2 ^ 32 ->
  claim_and_use fw addr len total m = (r, t', m') ->
  visit fw total m r t' m'.
Proof.
  intros Hl Ht H. unfold claim_and_use in H. cbv zeta in H.
  set (l := if len >? total then total else len) in *.
  assert (Hl' : 0 <= l <= total).
  { subst l. destruct (len >? total) eqn:E; b2p; lia. }
  clearbody l.
  destruct (negb (l =? 0)) eqn:E0; b2p.
  - destruct (negb (_ =? 0)) eqn:E1 in H; b2p; inversion H; subst; clear H.
    + eapply visit_fail with (a := addr) (l := l); eauto. lia.
    + rewrite u32_small by lia.
      apply visit_claim with (a := addr); auto; try lia.
      simpl. now rewrite E1.
  - subst l. inversion H; subst; clear H.
    apply visit_skip; auto.
    destruct (t' =? 0) eqn:E; b2p; auto.
Qed.



Lemma trimmed_len fw addr len a l :
  trimmed fw addr len = Some (a, l) -> 0 <= l.
Proof.
  intros Et.
  apply (f_equal (fun o => match o with Some p => snd p | None => 0 end)) in Et.
  cbv beta iota delta [snd] in Et. rewrite <- Et. unfold trimmed.
  destruct (addr >? _); [lia|]. cbv zeta.
  destruct (_ && _); [lia|].
  destruct (_ && _); exact (proj1 (u64_range _)).
Qed.

Lemma own_image_guard_spec fw a l m l1 m1 :
  0 <= l -> own_image_guard fw a l m = (l1, m1) ->
  0 <= l1 /\ claim_log m1 = claim_log m /\ regions m1 = regions m.
Proof.
  unfold own_image_guard. intros Hl H.
  destruct (_ && _); inversion H; subst; simpl; auto with zarith.
Qed.

Lemma linux_window_guard_len a l a2 l2 :
  0 <= l -> linux_window_guard a l = (a2, l2) -> 0 <= l2.
Proof.
  intros Hl H.
  replace l2 with (snd (linux_window_guard a l)) by (now rewrite H).
  unfold linux_window_guard.
  destruct (_ && _); cbv beta iota delta [snd];
    [exact (proj1 (u64_range _)) | assumption].
Qed.

Lemma visit_same_logs fw total m1 m r t' m' :
  claim_log m1 = claim_log m -> regions m1 = regions m ->
  visit fw total m1 r t' m' -> visit fw total m r t' m'.
Proof.
  intros Hc Hr H. destruct H; rewrite ?Hc, ?Hr in *.
  - now apply visit_skip.
  - now apply visit_claim with (a := a).
  - now apply visit_fail with (a := a) (l := l).
Qed.

(** Every call of heap_init ends in one of the three ways of [visit]. *)
Lemma heap_init_visit fw addr len type total m r t' m' :
  0 <= total < 2 ^ 32 ->
  heap_init fw addr len type total m = (r, t', m') ->
  visit fw total m r t' m'.
Proof.
  intros Ht H. rewrite heap_init_stages in H. unfold heap_init_staged in H.
  destruct (negb (type =? _)).
  { inversion H; subst. apply visit_skip; auto. }
  destruct (trimmed fw addr len) as [[a l]|] eqn:Et.
  2:{ inversion H; subst. apply visit_skip; auto. }
  apply trimmed_len in Et.
  destruct (own_image_guard fw a l m) as [l1 m1] eqn:Eo.
  destruct (linux_window_guard a l1) as [a2 l2] eqn:Ew.
  destruct (own_image_guard_spec _ _ _ _ _ _ Et Eo) as (Hl1 & Hc & Hr).
  pose proof (linux_window_guard_len _ _ _ _ Hl1 Ew) as Hl2.
  apply claim_and_use_visit in H; try assumption.
  eapply visit_same_logs; eauto.
Qed.

(** *** Accounting of one visit *)

Lemma sum_app {A : Type} (f : A -> Z) (xs ys : list A) :
  fold_right (fun x acc => f x + acc) 0 (xs ++ ys)
  = fold_right (fun x acc => f x + acc) 0 xs
    + fold_right (fun x acc => f x + acc) 0 ys.
Proof. induction xs as [|x xs IH]; simpl; lia. Qed.

Lemma registered_app m m' a l :
  regions m' = regions m ++ [(a, l)] -> registered m' = registered m + l.
Proof.
  unfold registered. intros ->. rewrite (sum_app snd). simpl. lia.
Qed.

Lemma claimed_app m m' a l err :
  claim_log m' = claim_log m ++ [(a, l, err)] ->
  claimed m' = claimed m + (if err =? 0 then l else 0).
Proof.
  unfold claimed. intros ->. rewrite filter_app.
  rewrite (sum_app (fun c : claim_call => snd (fst c))). simpl. unfold claim_ok. simpl.
  destruct (err =? 0); simpl; unfold claim_call; lia.
Qed.

Lemma visit_account fw total m r t' m' :
  visit fw total m r t' m' ->
  t' <= total /\ (0 <= total -> 0 <= t') /\
  registered m' = registered m + (total - t') /\
  claimed m' = claimed m + (total - t').
Proof.
  intros H.
  destruct H as [r m' Hc Hr _|a l m' Hl Hok Hc Hr|a l err m' Hl He Hok Hc Hr].
  - unfold registered, claimed. rewrite Hc, Hr. lia.
  - rewrite (registered_app _ _ _ _ Hr), (claimed_app _ _ _ _ _ Hc). simpl. lia.
  - rewrite (claimed_app _ _ _ _ _ Hc). unfold registered. rewrite Hr.
    destruct (err =? 0) eqn:E; b2p; [contradiction|lia].
Qed.

(** *** The size pass *)

Lemma heap_size_pure addr len type d m :
  heap_size addr len type d m
  = (0, snd (fst (heap_size addr len type d empty_machine)), m).
Proof.
  unfold heap_size. destruct (negb _); [reflexivity|].
  destruct (addr >? _); reflexivity.
Qed.

Lemma heap_size_range addr len type d :
  0 <= d < 2 ^ 32 ->
  0 <= snd (fst (heap_size addr len type d empty_machine)) < 2 ^ 32.
Proof.
  intros Hd. unfold heap_size. destruct (negb _); [exact Hd|].
  destruct (addr >? _); [exact Hd|]. exact (u32_range _).
Qed.

Lemma size_pass_pure mmap : forall d m,
  grub_machine_mmap_iterate heap_size mmap d m
  = (fst (fst (grub_machine_mmap_iterate heap_size mmap d empty_machine)), m, []).
Proof.
  induction mmap as [|e rest IH]; intros d m; simpl; [reflexivity|].
  rewrite (heap_size_pure _ _ _ d m), (heap_size_pure _ _ _ d empty_machine).
  simpl. rewrite (IH _ m), (IH _ empty_machine). reflexivity.
Qed.

Lemma size_pass_range mmap : forall d,
  0 <= d < 2 ^ 32 ->
  0 <= fst (fst (grub_machine_mmap_iterate heap_size mmap d empty_machine))
    < 2 ^ 32.
Proof.
  induction mmap as [|e rest IH]; intros d Hd; simpl; [exact Hd|].
  rewrite (heap_size_pure _ _ _ d empty_machine). simpl.
  apply IH. now apply heap_size_range.
Qed.

Lemma raw_total_range mmap : 0 <= raw_total mmap < 2 ^ 32.
Proof. apply size_pass_range. lia. Qed.

Lemma claim_budget_range fw mmap : 0 <= claim_budget fw mmap < 2 ^ 32.
Proof.
  unfold claim_budget. pose proof (raw_total_range mmap) as Hr.
  assert (0 <= raw_total mmap / 4 <= raw_total mmap).
  { split; [apply Z.div_pos; lia|]. apply Z.div_le_upper_bound; lia. }
  assert (0 < HEAP_MAX_SIZE (plat fw)) by (destruct (plat fw); reflexivity).
  lia.
Qed.

(** grub_claim_heap without the static-heap flag: the claim pass runs with
    the derived budget. *)
Lemma grub_claim_heap_dynamic fw mmap m :
  FLAG_FORCE_CLAIM fw = false ->
  grub_claim_heap fw mmap m
  = (tt, snd (fst (grub_machine_mmap_iterate (heap_init fw) mmap
                     (claim_budget fw mmap) m))).
Proof.
  intros Hf. unfold grub_claim_heap. rewrite Hf.
  rewrite (size_pass_pure mmap 0 m). fold (raw_total mmap). cbv zeta.
  replace (if raw_total mmap / 4 >? HEAP_MAX_SIZE (plat fw)
           then HEAP_MAX_SIZE (plat fw) else raw_total mmap / 4)
    with (claim_budget fw mmap).
  - destruct (grub_machine_mmap_iterate (heap_init fw) mmap _ m) as [[t m1] rest].
    reflexivity.
  - unfold claim_budget.
    destruct (raw_total mmap / 4 >? HEAP_MAX_SIZE (plat fw)) eqn:E; b2p; lia.
Qed.

(** *** The claim pass *)

Lemma claim_pass_account fw mmap : forall total m t' m' rest,
  0 <= total < 2 ^ 32 ->
  grub_machine_mmap_iterate (heap_init fw) mmap total m = (t', m', rest) ->
  0 <= t' <= total /\
  registered m' = registered m + (total - t') /\
  claimed m' = claimed m + (total - t').
Proof.
  induction mmap as [|e mmap IH]; intros total m t' m' rest Ht H; simpl in H.
  - inversion H; subst. lia.
  - destruct (heap_init fw _ _ _ total m) as [[r d1] m1] eqn:Eh.
    apply heap_init_visit in Eh; [|exact Ht].
    apply visit_account in Eh. destruct Eh as (H1 & H2 & H3 & H4).
    destruct (r =? 0).
    + apply IH in H; [|lia]. lia.
    + inversion H; subst. lia.
Qed.

Lemma continues_iterate hook pre suf : forall d m d1 m1,
  continues hook pre d m = Some (d1, m1) ->
  grub_machine_mmap_iterate hook (pre ++ suf) d m
  = grub_machine_mmap_iterate hook suf d1 m1.
Proof.
  induction pre as [|e pre IH]; intros d m d1 m1 H; simpl in *.
  - inversion H; subst. reflexivity.
  - destruct (hook _ _ _ d m) as [[r d'] m'].
    destruct (r =? 0); [now apply IH|discriminate].
Qed.

Lemma visit_regions_grow fw total m r t' m' :
  visit fw total m r t' m' -> exists more, regions m' = regions m ++ more.
Proof.
  intros H. destruct H as [r m' _ Hr _|a l m' _ _ _ Hr|a l err m' _ _ _ _ Hr].
  - exists []. now rewrite app_nil_r.
  - now exists [(grub_addr_t a, l)].
  - exists []. now rewrite app_nil_r.
Qed.

Lemma continues_claim_pass fw pre : forall d m d1 m1,
  0 <= d < 2 ^ 32 ->
  continues (heap_init fw) pre d m = Some (d1, m1) ->
  0 <= d1 <= d /\ exists more, regions m1 = regions m ++ more.
Proof.
  induction pre as [|e pre IH]; intros d m d1 m1 Hd H; simpl in H.
  - inversion H; subst. split; [lia|]. exists []. now rewrite app_nil_r.
  - destruct (heap_init fw _ _ _ d m) as [[r d'] m'] eqn:Eh.
    apply heap_init_visit in Eh; [|exact Hd].
    destruct (visit_regions_grow _ _ _ _ _ _ Eh) as [more1 Hm1].
    apply visit_account in Eh. destruct Eh as (H1 & H2 & _).
    destruct (r =? 0); [|discriminate].
    apply IH in H; [|lia]. destruct H as (H3 & more2 & Hm2).
    split; [lia|]. exists (more1 ++ more2). now rewrite Hm2, Hm1, app_assoc.
Qed.

(** C4: without the static-heap flag, the regions that grub_claim_heap
    registers, and the claims the firmware grants, add up to at most the
    derived budget min (raw total / 4, HEAP_MAX_SIZE); and when a visit of
    the claim pass brings a positive remaining budget to zero, heap_init
    returns 1 and the pass ends there, the later extents unvisited. *)
Theorem claim_pass_within_budget fw mmap m :
  FLAG_FORCE_CLAIM fw = false ->
  let budget := Z.min (raw_total mmap / 4) (HEAP_MAX_SIZE (plat fw)) in
  let m' := snd (grub_claim_heap fw mmap m) in
  (registered m' - registered m <= budget
   /\ claimed m' - claimed m <= budget)
  /\ forall pre e post t m1 r m2,
       mmap = pre ++ e :: post ->
       continues (heap_init fw) pre budget m = Some (t, m1) ->
       0 < t ->
       heap_init fw (e_addr e) (e_len e) (e_type e) t m1 = (r, 0, m2) ->
       r = 1
       /\ grub_machine_mmap_iterate (heap_init fw) mmap budget m = (0, m2, post)
       /\ m' = m2.
Proof.
  intros Hf budget m'. subst m'. rewrite (grub_claim_heap_dynamic _ _ _ Hf).
  fold (claim_budget fw mmap) in budget. cbn [snd].
  pose proof (claim_budget_range fw mmap) as Hb. fold budget in Hb |- *.
  split.
  - destruct (grub_machine_mmap_iterate (heap_init fw) mmap budget m)
      as [[t' m'] rest] eqn:Ei.
    apply claim_pass_account in Ei; [|exact Hb]. cbn [fst snd]. lia.
  - intros pre e post t m1 r m2 -> Hpre Ht Hv.
    assert (Hr : r = 1).
    { apply continues_claim_pass in Hpre; [|exact Hb].
      apply heap_init_visit in Hv; [|lia].
      inversion Hv as [r' m3 _ _ _ Ht0|a l m3 Hl _ _ _ Hr Ht0|a l err m3 _ _ _ _ _ Hr Ht0];
        subst; try lia.
      rewrite Ht0. reflexivity. }
    subst r. rewrite (continues_iterate _ _ _ _ _ _ _ Hpre). simpl.
    rewrite Hv. simpl. auto.
Qed.

Lemma claim_pass_within_budget_witness :
  let mmap := [mkExtent 0x1000000 0x400000 GRUB_MEMORY_AVAILABLE;
               mkExtent 0x4000000 0x400000 GRUB_MEMORY_AVAILABLE] in
  let m' := snd (grub_claim_heap fw_ok mmap empty_machine) in
  registered m' - registered empty_machine <= 0x200000
  /\ regions m' = [(0x1000000, 0x200000)].
Proof.
  intros mmap m'.
  destruct (claim_pass_within_budget fw_ok mmap empty_machine eq_refl)
    as [[Hreg _] _].
  split; [exact Hreg | reflexivity].
Defined.

(** C3, as the code has it: when the firmware refuses a claim in the claim
    pass, heap_init returns the error code and leaves the total and the
    registered regions as they were; the pass ends there, the later extents
    unvisited, and the regions registered before stay registered.
    grub_claim_heap itself returns nothing. *)
Theorem refused_claim_ends_pass fw pre e post m t m1 r t' m2 a l err :
  FLAG_FORCE_CLAIM fw = false ->
  let mmap := pre ++ e :: post in
  let budget := Z.min (raw_total mmap / 4) (HEAP_MAX_SIZE (plat fw)) in
  continues (heap_init fw) pre budget m = Some (t, m1) ->
  heap_init fw (e_addr e) (e_len e) (e_type e) t m1 = (r, t', m2) ->
  claim_log m2 = claim_log m1 ++ [(a, l, err)] ->
  err <> 0 ->
  r = err /\ t' = t
  /\ regions m2 = regions m1
  /\ (exists earlier, regions m1 = regions m ++ earlier)
  /\ grub_machine_mmap_iterate (heap_init fw) mmap budget m = (t, m2, post)
  /\ grub_claim_heap fw mmap m = (tt, m2).
Proof.
  intros Hf mmap budget Hpre Hv Hlog Herr.
  fold (claim_budget fw mmap) in budget.
  pose proof (claim_budget_range fw mmap) as Hb. fold budget in Hb.
  destruct (continues_claim_pass _ _ _ _ _ _ Hb Hpre) as [Ht Hgrow].
  pose proof Hv as Hvis. apply heap_init_visit in Hvis; [|lia].
  assert (Hcase : r = err /\ t' = t /\ regions m2 = regions m1).
  { destruct Hvis as [r m2 Hc _ _|a' l' m2 _ _ Hc _|a' l' err' m2 _ _ _ Hc Hr];
      rewrite Hc in Hlog.
    - rewrite <- (app_nil_r (claim_log m1)) in Hlog at 1.
      apply app_inv_head in Hlog. discriminate.
    - apply app_inv_head in Hlog. congruence.
    - apply app_inv_head in Hlog. split; [congruence|auto]. }
  destruct Hcase as (-> & -> & Hreg).
  assert (Hit : grub_machine_mmap_iterate (heap_init fw) mmap budget m
                = (t, m2, post)).
  { unfold mmap. rewrite (continues_iterate _ _ _ _ _ _ _ Hpre). simpl.
    rewrite Hv. destruct (err =? 0) eqn:E; b2p; [contradiction|reflexivity]. }
  repeat split; auto.
  rewrite (grub_claim_heap_dynamic _ _ _ Hf). fold budget. now rewrite Hit.
Qed.

Lemma refused_claim_ends_pass_witness :
  let e1 := mkExtent 0x1000000 0x100000 GRUB_MEMORY_AVAILABLE in
  let e2 := mkExtent 0x2000000 0x1000000 GRUB_MEMORY_AVAILABLE in
  let e3 := mkExtent 0x4000000 0x1000000 GRUB_MEMORY_AVAILABLE in
  let m2 := mkMachine [(0x1000000, 0xfffff, 0); (0x2000000, 0x740001, -1)]
                      [(0x1000000, 0xfffff)] [] in
  grub_machine_mmap_iterate (heap_init fw_second_fails) [e1; e2; e3]
    0x840000 empty_machine = (0x740001, m2, [e3])
  /\ grub_claim_heap fw_second_fails [e1; e2; e3] empty_machine = (tt, m2).
Proof.
  intros e1 e2 e3 m2.
  pose proof (refused_claim_ends_pass fw_second_fails [e1] e2 [e3]
                empty_machine 0x740001
                (mkMachine [(0x1000000, 0xfffff, 0)] [(0x1000000, 0xfffff)] [])
                (-1) 0x740001 m2 0x2000000 0x740001 (-1)
                eq_refl eq_refl eq_refl eq_refl) as H.
  assert (Hne : -1 <> 0) by discriminate.
  destruct (H Hne) as (_ & _ & _ & _ & Hit & Hheap).
  split; [exact Hit | exact Hheap].
Defined.

(** C3, against the claim as written: the error that a refused claim makes
    heap_init return does not reach the caller of grub_claim_heap, whose
    result is the same as in a run where the firmware grants the claim. *)
Lemma refused_claim_not_reported :
  let budget := 0x400000 in
  let mmap := [mkExtent 0x1000000 0x1000000 GRUB_MEMORY_AVAILABLE] in
  let m_refused := mkMachine [(0x1000000, budget, -1)] [] [] in
  let m_granted :=
    mkMachine [(0x1000000, budget, 0)] [(0x1000000, budget)] [] in
  heap_init fw_refusing 0x1000000 0x1000000 GRUB_MEMORY_AVAILABLE budget
            empty_machine = (-1, budget, m_refused)
  /\ grub_claim_heap fw_refusing mmap empty_machine = (tt, m_refused)
  /\ grub_claim_heap fw_ok mmap empty_machine = (tt, m_granted)
  /\ fst (grub_claim_heap fw_refusing mmap empty_machine)
     = fst (grub_claim_heap fw_ok mmap empty_machine).
Proof. vm_compute. repeat split. Qed.

(** *** The static heap window *)

(** C1, what the code does: with the static-heap flag set, grub_claim_heap
    hands the window to heap_init with a total of 0, so the length is
    clipped to 0: the firmware is asked for nothing and no region is
    registered, whatever the window and the memory map. *)
Theorem static_heap_claims_nothing fw mmap m :
  FLAG_FORCE_CLAIM fw = true ->
  claim_log (snd (grub_claim_heap fw mmap m)) = claim_log m
  /\ regions (snd (grub_claim_heap fw mmap m)) = regions m.
Proof.
  intros Hf. unfold grub_claim_heap. rewrite Hf. cbv zeta.
  destruct (heap_init fw _ _ 1 0 m) as [[r t'] m'] eqn:Eh. cbn [snd].
  apply heap_init_visit in Eh; [|lia].
  destruct Eh as [r m' Hc Hr _|a l m' Hl _ _ _|a l err m' Hl _ _ _ _];
    [auto|lia|lia].
Qed.

Lemma static_heap_claims_nothing_witness :
  grub_claim_heap fw_static [] empty_machine = (tt, empty_machine)
  /\ claim_log (snd (grub_claim_heap fw_static [] empty_machine)) = []
  /\ regions (snd (grub_claim_heap fw_static [] empty_machine)) = [].
Proof.
  split; [reflexivity|].
  exact (static_heap_claims_nothing fw_static [] empty_machine eq_refl).
Defined.

(** *** Extents whose length is zero before the decrement *)

(** C2, what the code does: an Available extent based at 0xffffffff is
    clipped to length 0, the decrement wraps the length to 2^64 - 1, and the
    clip to the total turns it into the whole remaining total, which is
    claimed at 0xffffffff. *)
Theorem zero_length_takes_budget fw len total m :
  1 <= len < 2 ^ 64 - 0xffffffff ->
  0 < total < 2 ^ 32 ->
  grub_claimmap fw (claim_log m) 0xffffffff total = 0 ->
  heap_init fw 0xffffffff len GRUB_MEMORY_AVAILABLE total m
  = (1, 0, grub_mm_init_region 0xffffffff total
             (record_claim 0xffffffff total 0 m)).
Proof.
  intros Hl Ht Hok. rewrite heap_init_stages. unfold heap_init_staged.
  change (negb (GRUB_MEMORY_AVAILABLE =? GRUB_MEMORY_AVAILABLE)) with false.
  cbv beta iota.
  assert (Et : trimmed fw 0xffffffff len = Some (0xffffffff, 2 ^ 64 - 1)).
  { unfold trimmed. change (0xffffffff >? 0xffffffff) with false. cbv beta iota zeta.
    rewrite (u64_small (0xffffffff + len)) by lia.
    replace (0xffffffff + len >? 0xffffffff) with true
      by (symmetry; rewrite Z.gtb_ltb; apply Z.ltb_lt; lia).
    change (u64 (0xffffffff - 0xffffffff)) with 0.
    change (u64 (0xffffffff + 0) <=? 0x180000) with false.
    rewrite andb_false_r.
    change (0xffffffff <? 0x180000) with false. rewrite andb_false_r.
    reflexivity. }
  rewrite Et.
  assert (Eo : own_image_guard fw 0xffffffff (2 ^ 64 - 1) m = (2 ^ 64 - 1, m)).
  { unfold own_image_guard.
    replace (0xffffffff <? grub_addr_t (_end fw)) with false; [reflexivity|].
    symmetry. apply Z.ltb_ge. pose proof (u32_range (_end fw)).
    unfold grub_addr_t. lia. }
  rewrite Eo.
  change (linux_window_guard 0xffffffff (2 ^ 64 - 1))
    with (0xffffffff, 2 ^ 64 - 1).
  unfold claim_and_use.
  replace (2 ^ 64 - 1 >? total) with true
    by (symmetry; rewrite Z.gtb_ltb; apply Z.ltb_lt; lia).
  cbv zeta.
  replace (negb (total =? 0)) with true
    by (symmetry; apply negb_true_iff, Z.eqb_neq; lia).
  rewrite Hok. change (negb (0 =? 0)) with false. cbv beta iota.
  rewrite Z.sub_diag. reflexivity.
Qed.

Lemma zero_length_takes_budget_witness :
  heap_init fw_ok 0xffffffff 0x1000 GRUB_MEMORY_AVAILABLE 0x100000
            empty_machine
  = (1, 0, mkMachine [(0xffffffff, 0x100000, 0)] [(0xffffffff, 0x100000)] []).
Proof.
  apply (zero_length_takes_budget fw_ok 0x1000 0x100000 empty_machine).
  - lia.
  - lia.
  - reflexivity.
Defined.

(** *** The guard against the image of GRUB *)

(** C5, against the claim as written: the Available extent
    [0x100000, 0x200001) meets the image [0x200000, 0x400000) in its last
    byte.  The decrement of the length comes before the test, so the test
    does not fire: no warning is printed and [0x100000, 0x200000) is
    claimed and registered. *)
Lemma low_edge_extent_not_dropped :
  intersects_image fw_ok 0x100000 0x100001
  /\ heap_init fw_ok 0x100000 0x100001 GRUB_MEMORY_AVAILABLE 0x1000000
               empty_machine
     = (0, 0xf00000,
        mkMachine [(0x100000, 0x100000, 0)] [(0x100000, 0x100000)] []).
Proof.
  split.
  - exists 0x200000. cbn. lia.
  - vm_compute. reflexivity.
Qed.

(** C5, as the code has it: let [a, a + l) be the extent that heap_init has
    in hand after the clip at 0xffffffff, the low-memory trim and the
    decrement of the length.  If it meets the image, that is a < _end and
    _start < a + l, the length is set to 0 and the warning is printed:
    nothing is claimed, nothing is registered, and the total is unchanged.
    The extent is never trimmed to the part outside the image. *)
Theorem own_image_extent_dropped fw addr len total m a l :
  0 <= addr -> 0 <= total ->
  trimmed fw addr len = Some (a, l) ->
  a < grub_addr_t (_end fw) ->
  grub_addr_t (_start fw) < u64 (a + l) ->
  heap_init fw addr len GRUB_MEMORY_AVAILABLE total m
  = (if total =? 0 then 1 else 0, total, grub_printf overlap_warning m).
Proof.
  intros Ha Ht Et Hend Hstart.
  rewrite heap_init_stages. unfold heap_init_staged.
  change (negb (GRUB_MEMORY_AVAILABLE =? GRUB_MEMORY_AVAILABLE)) with false.
  cbv beta iota. rewrite Et.
  assert (Ha' : 0 <= a <= 0xffffffff).
  { apply (f_equal (fun o => match o with Some p => fst p | None => 0 end))
      in Et.
    cbv beta iota delta [fst] in Et. rewrite <- Et. unfold trimmed.
    destruct (addr >? 0xffffffff) eqn:E0; b2p; [lia|]. cbv zeta.
    destruct (_ && _); [lia|].
    destruct (_ && _); lia. }
  unfold own_image_guard.
  replace (a <? grub_addr_t (_end fw)) with true
    by (symmetry; apply Z.ltb_lt; lia).
  replace (u64 (a + l) >? grub_addr_t (_start fw)) with true
    by (symmetry; rewrite Z.gtb_ltb; apply Z.ltb_lt; lia).
  cbv beta iota delta [andb]. unfold linux_window_guard.
  rewrite Z.add_0_r, (u64_small a) by lia.
  replace ((a <? 0x30000000) && (a >? 0x30000000)) with false.
  2:{ symmetry. apply andb_false_iff. rewrite Z.gtb_ltb.
      destruct (a <? 0x30000000) eqn:E; b2p; [right|left; reflexivity].
      apply Z.ltb_ge. lia. }
  unfold claim_and_use.
  replace (0 >? total) with false
    by (symmetry; rewrite Z.gtb_ltb; apply Z.ltb_ge; lia).
  reflexivity.
Qed.

Lemma own_image_extent_dropped_witness :
  heap_init fw_ok 0x100000 0x100002 GRUB_MEMORY_AVAILABLE 0x1000000
            empty_machine
  = (0, 0x1000000, mkMachine [] [] [overlap_warning]).
Proof.
  apply (own_image_extent_dropped fw_ok 0x100000 0x100002 0x1000000
           empty_machine 0x100000 0x100001).
  - lia.
  - lia.
  - reflexivity.
  - reflexivity.
  - reflexivity.
Defined.

(** *** The clip at 0xffffffff *)

(** The size pass counts 0xffffffff - addr for an Available extent that
    starts at or below 0xffffffff and ends above it. *)
Lemma heap_size_straddle addr len total m :
  0 <= addr <= 0xffffffff -> 0xffffffff < addr + len < 2 ^ 64 ->
  heap_size addr len GRUB_MEMORY_AVAILABLE total m
  = (0, u32 (total + (0xffffffff - addr)), m).
Proof.
  intros Ha Hl. unfold heap_size.
  change (negb (GRUB_MEMORY_AVAILABLE =? GRUB_MEMORY_AVAILABLE)) with false.
  cbv beta iota.
  replace (addr >? 0xffffffff) with false
    by (symmetry; rewrite Z.gtb_ltb; apply Z.ltb_ge; lia).
  rewrite (u64_small (addr + len)) by lia.
  replace (addr + len >? 0xffffffff) with true
    by (symmetry; rewrite Z.gtb_ltb; apply Z.ltb_lt; lia).
  rewrite (u64_small (0xffffffff - addr)) by lia. reflexivity.
Qed.

(** The claim pass clips such an extent to the same length, which it then
    decrements. *)
Lemma trimmed_straddle fw addr len :
  FLAG_NO_PRE1_5M_CLAIM fw = false ->
  0 <= addr <= 0xffffffff -> 0xffffffff < addr + len < 2 ^ 64 ->
  trimmed fw addr len = Some (addr, u64 (0xffffffff - addr - 1)).
Proof.
  intros Hflag Ha Hl. unfold trimmed. rewrite Hflag.
  replace (addr >? 0xffffffff) with false
    by (symmetry; rewrite Z.gtb_ltb; apply Z.ltb_ge; lia).
  rewrite (u64_small (addr + len)) by lia.
  replace (addr + len >? 0xffffffff) with true
    by (symmetry; rewrite Z.gtb_ltb; apply Z.ltb_lt; lia).
  rewrite (u64_small (0xffffffff - addr)) by lia. reflexivity.
Qed.

(** Both passes skip an Available extent that starts above 0xffffffff. *)
Lemma above_ceiling_skipped fw addr len total m :
  0xffffffff < addr ->
  heap_size addr len GRUB_MEMORY_AVAILABLE total m = (0, total, m)
  /\ heap_init fw addr len GRUB_MEMORY_AVAILABLE total m = (0, total, m).
Proof.
  intros Ha. unfold heap_size, heap_init.
  change (negb (GRUB_MEMORY_AVAILABLE =? GRUB_MEMORY_AVAILABLE)) with false.
  cbv beta iota.
  replace (addr >? 0xffffffff) with true
    by (symmetry; rewrite Z.gtb_ltb; apply Z.ltb_lt; lia).
  split; reflexivity.
Qed.

(** C6, what the code does at the ceiling: for the Available extent
    [0xffffffff, 0xffffffff + 0x2000) the size pass counts 0, but the claim
    pass claims and registers the whole remaining total at 0xffffffff. *)
Theorem ceiling_extent_claimed_in_full :
  heap_size 0xffffffff 0x2000 GRUB_MEMORY_AVAILABLE 0x5000 empty_machine
  = (0, 0x5000, empty_machine)
  /\ heap_init fw_ok 0xffffffff 0x2000 GRUB_MEMORY_AVAILABLE 0x5000
               empty_machine
     = (1, 0, mkMachine [(0xffffffff, 0x5000, 0)] [(0xffffffff, 0x5000)] []).
Proof. split; vm_compute; reflexivity. Qed.
End HeapFacts.

(** ** The boot location *)

Module BootFacts.
Import Boot.
Local Open Scope string_scope.

(** *** grub_translate_ieee1275_path *)

Lemma poke_length s : forall k c, String.length (poke s k c) = String.length s.
Proof.
  induction s as [|a r IH]; intros [|k] c; simpl; auto.
Qed.

Lemma grub_strchr_lt s c : forall k,
  grub_strchr s c = Some k -> (k < String.length s)%nat.
Proof.
  induction s as [|a r IH]; intros k H; simpl in H; [discriminate|].
  destruct (Ascii.eqb a c).
  - inversion H; subst. simpl. lia.
  - destruct (grub_strchr r c) as [k'|]; [|discriminate].
    inversion H; subst. specialize (IH k' eq_refl). simpl. lia.
Qed.

Lemma replace_no_backslash s :
  grub_strchr s "\" = None -> replace_backslashes s = s.
Proof.
  induction s as [|a r IH]; simpl; intros H; [reflexivity|].
  destruct (Ascii.eqb a "\"); [discriminate|].
  destruct (grub_strchr r "\"); [discriminate|].
  now rewrite IH.
Qed.

Lemma replace_poke s : forall k,
  grub_strchr s "\" = Some k ->
  replace_backslashes (poke s k "/") = replace_backslashes s.
Proof.
  induction s as [|a r IH]; intros k H; simpl in H; [discriminate|].
  destruct (Ascii.eqb a "\") eqn:E.
  - inversion H; subst. simpl. now rewrite E.
  - destruct (grub_strchr r "\") as [k'|]; [|discriminate].
    inversion H; subst. simpl. now rewrite IH.
Qed.

Lemma poke_next_backslash s : forall k k',
  grub_strchr s "\" = Some k ->
  grub_strchr (poke s k "/") "\" = Some k' -> (k < k')%nat.
Proof.
  induction s as [|a r IH]; intros k k' H H'; simpl in H; [discriminate|].
  destruct (Ascii.eqb a "\") eqn:E.
  - inversion H; subst. simpl in H'.
    destruct (grub_strchr r "\"); [|discriminate].
    inversion H'; subst. lia.
  - destruct (grub_strchr r "\") as [j|] eqn:Er; [|discriminate].
    inversion H; subst. simpl in H'. rewrite E in H'.
    destruct (grub_strchr (poke r j "/") "\") as [j'|] eqn:Ep; [|discriminate].
    inversion H'; subst. specialize (IH j j' eq_refl Ep). lia.
Qed.

Lemma translate_loop_replace : forall fuel s,
  (forall k, grub_strchr s "\" = Some k -> (String.length s - k <= fuel)%nat) ->
  translate_loop fuel s = replace_backslashes s.
Proof.
  induction fuel as [|fuel IH]; intros s Hf; simpl;
    destruct (grub_strchr s "\") as [k|] eqn:E;
    try (symmetry; now apply replace_no_backslash).
  - pose proof (grub_strchr_lt _ _ _ E). specialize (Hf k eq_refl). lia.
  - rewrite IH; [now apply replace_poke|].
    intros k' Hk'. rewrite poke_length.
    pose proof (poke_next_backslash _ _ _ E Hk'). specialize (Hf k eq_refl). lia.
Qed.

(** The loop of grub_translate_ieee1275_path ends within its fuel, and
    what it computes is the replacement of every backslash. *)
Lemma translate_loop_enough s :
  grub_translate_ieee1275_path s = replace_backslashes s.
Proof.
  apply translate_loop_replace. intros k _. lia.
Qed.

(** *** The walk over the canonical name *)

Lemma get_some s : forall i,
  (i < String.length s)%nat -> exists c, String.get i s = Some c.
Proof.
  induction s as [|a r IH]; intros i Hi; simpl in Hi; [lia|].
  destruct i as [|i]; simpl; [now exists a|]. apply IH. lia.
Qed.

Lemma get_none s : forall i,
  (String.length s <= i)%nat -> String.get i s = None.
Proof.
  induction s as [|a r IH]; intros i Hi; simpl in *; [reflexivity|].
  destruct i as [|i]; [lia|]. apply IH. lia.
Qed.

Lemma substring_length s : forall m,
  (m <= String.length s)%nat -> String.length (substring 0 m s) = m.
Proof.
  induction s as [|a r IH]; intros m Hm; simpl in Hm.
  - assert (m = 0)%nat by lia. subst. reflexivity.
  - destruct m as [|m]; simpl; [reflexivity|]. rewrite IH; lia.
Qed.

Lemma substring_prefix s : forall m,
  substring 0 (String.length (substring 0 m s)) s = substring 0 m s.
Proof.
  induction s as [|a r IH]; intros m; simpl.
  - destruct m; reflexivity.
  - destruct m as [|m]; simpl; [reflexivity|]. now rewrite IH.
Qed.

Lemma strip_loop_spec canon : forall ptr,
  (ptr < String.length canon)%nat ->
  (strip_loop canon ptr <= ptr)%nat
  /\ (forall i c, (strip_loop canon ptr < i <= ptr)%nat ->
        String.get i canon = Some c -> is_separator c = true)
  /\ (strip_loop canon ptr = O
      \/ exists c, String.get (strip_loop canon ptr) canon = Some c
                   /\ is_separator c = false).
Proof.
  induction ptr as [|p IH]; intros Hp.
  - simpl. split; [lia|]. split; [intros; lia | now left].
  - cbn [strip_loop]. destruct (get_some canon (S p) Hp) as [c Hc]. rewrite Hc.
    destruct (is_separator c) eqn:Es.
    + destruct IH as (H1 & H2 & H3); [lia|]. split; [lia|]. split; [|exact H3].
      intros i c' Hi Hg. destruct (Nat.eq_dec i (S p)) as [->|Hne].
      * congruence.
      * apply (H2 i c'); [lia|exact Hg].
    + split; [lia|]. split; [intros; lia|]. right. now exists c.
Qed.

Lemma strip_canon_eq canon :
  canon <> "" ->
  strip_canon canon
  = substring 0 (S (strip_loop canon (String.length canon - 1))) canon.
Proof.
  intros Hne. unfold strip_canon, terminate_at.
  destruct canon as [|a r]; [contradiction|].
  cbn [String.length]. f_equal.
  destruct (Z.of_nat (S (String.length r)) - 1 >? 0)%Z eqn:E.
  - replace (Z.to_nat (Z.of_nat (S (String.length r)) - 1))
      with (S (String.length r) - 1)%nat by lia.
    lia.
  - assert (String.length r = 0)%nat.
    { rewrite Z.gtb_ltb in E. apply Z.ltb_ge in E. lia. }
    rewrite H. simpl. reflexivity.
Qed.

(** What the walk leaves of the canonical name: a prefix of it; all that is
    cut off is commas and colons; the last character kept is neither,
    unless a single character is kept; and a non-empty name keeps at least
    its first character. *)
Lemma strip_canon_spec canon :
  let name := strip_canon canon in
  name = substring 0 (String.length name) canon
  /\ (forall i c, (String.length name <= i)%nat ->
        String.get i canon = Some c -> is_separator c = true)
  /\ ((String.length name <= 1)%nat
      \/ exists c, String.get (String.length name - 1) canon = Some c
                   /\ is_separator c = false)
  /\ (canon <> "" -> (1 <= String.length name)%nat).
Proof.
  intros name. subst name.
  destruct (string_dec canon "") as [->|Hne].
  { cbn. split; [reflexivity|]. split; [intros i c _ H; destruct i; discriminate|].
    split; [left; lia | intros H; contradiction]. }
  rewrite (strip_canon_eq _ Hne).
  assert (Hlen : (0 < String.length canon)%nat).
  { destruct canon; [contradiction|simpl; lia]. }
  destruct (strip_loop_spec canon (String.length canon - 1)) as (H1 & H2 & H3);
    [lia|].
  set (q := strip_loop canon (String.length canon - 1)) in *.
  rewrite substring_length by lia.
  split; [symmetry; rewrite <- (substring_length canon (S q)) at 1 by lia;
          apply substring_prefix|].
  split.
  - intros i c Hi Hg.
    destruct (Nat.lt_ge_cases i (String.length canon)) as [Hlt|Hge].
    + apply (H2 i c); [lia|exact Hg].
    + rewrite (get_none _ _ Hge) in Hg. discriminate.
  - split; [|intros _; lia].
    destruct H3 as [H3|H3]; [left; lia|right].
    replace (S q - 1)%nat with q by lia. exact H3.
Qed.

(** *** grub_machine_get_bootlocation *)

(** C7, against the claim as written: the walk never moves below the first
    character, so for the canonical name ",:" the callback receives ",",
    which still ends in a comma. *)
Lemma separator_only_name_keeps_comma :
  net_config_calls (grub_machine_get_bootlocation (fw_net ",:") unset)
  = [(",", "net:10.0.0.1")]
  /\ String.get (String.length "," - 1) "," = Some ","%char.
Proof. split; reflexivity. Qed.

(** C7, as the code has it: for a boot device of type network whose alias
    name canonicalises to canon, the resolver passes to the registered
    callback the name that the walk leaves of canon (trailing commas and
    colons cut off, the first character always kept) together with the boot
    path, and the out-parameters are what the callback leaves of them; with
    no callback registered they are left as they were. *)
Theorem network_boot_delegates fw bootpath canon out :
  grub_ieee1275_get_boot_dev fw = Some bootpath ->
  grub_ieee1275_get_device_type fw bootpath = Some "network" ->
  grub_ieee1275_canonicalise_devname fw
    (grub_ieee1275_get_aliasdevname fw bootpath) = Some canon ->
  let name := strip_canon canon in
  let res := grub_machine_get_bootlocation fw out in
  match grub_ieee1275_net_config fw with
  | Some net_config =>
      net_config_calls res = [(name, bootpath)]
      /\ loc res = net_config name out bootpath
  | None => net_config_calls res = [] /\ loc res = out
  end
  /\ name = substring 0 (String.length name) canon
  /\ (forall i c, (String.length name <= i)%nat ->
        String.get i canon = Some c -> is_separator c = true)
  /\ ((String.length name <= 1)%nat
      \/ exists c, String.get (String.length name - 1) canon = Some c
                   /\ is_separator c = false)
  /\ (canon <> "" -> (1 <= String.length name)%nat).
Proof.
  intros Hdev Htype Hcanon name res. split; [|apply strip_canon_spec].
  subst res. unfold grub_machine_get_bootlocation.
  rewrite Hdev, Htype, Hcanon. cbn [String.eqb Ascii.eqb Bool.eqb].
  fold name. destruct (grub_ieee1275_net_config fw); split; reflexivity.
Qed.

Lemma network_boot_delegates_witness :
  grub_machine_get_bootlocation (fw_net "/pci/ethernet@1:,") unset
  = mkResolved (mkLocation (Some "/pci/ethernet@1") (Some "net:10.0.0.1"))
               [("/pci/ethernet@1", "net:10.0.0.1")].
Proof.
  pose proof (network_boot_delegates (fw_net "/pci/ethernet@1:,")
                "net:10.0.0.1" "/pci/ethernet@1:," unset
                eq_refl eq_refl eq_refl) as H.
  cbv zeta in H. destruct H as [[Hcalls Hloc] _].
  destruct (grub_machine_get_bootlocation (fw_net "/pci/ethernet@1:,") unset)
    as [l calls].
  cbn [net_config_calls loc] in Hcalls, Hloc. rewrite Hcalls, Hloc.
  reflexivity.
Defined.

Lemma not_network fw bootpath :
  grub_ieee1275_get_device_type fw bootpath <> Some "network" ->
  match grub_ieee1275_get_device_type fw bootpath with
  | Some t => String.eqb t "network"
  | None => false
  end = false.
Proof.
  intros H. destruct (grub_ieee1275_get_device_type fw bootpath) as [t|];
    [|reflexivity].
  apply String.eqb_neq. congruence.
Qed.

(** C8: for a boot device that is not of type network, the firmware file
    name \boot\grub\x gives the path /boot/grub; and whatever the firmware
    answers for the file name, the device is the encoded device name. *)
Theorem disk_boot_path fw bootpath out :
  grub_ieee1275_get_boot_dev fw = Some bootpath ->
  grub_ieee1275_get_device_type fw bootpath <> Some "network" ->
  let res := grub_machine_get_bootlocation fw out in
  (grub_ieee1275_get_filename fw bootpath = Some "\boot\grub\x" ->
   path (loc res) = Some "/boot/grub")
  /\ device (loc res) = grub_ieee1275_encode_devname fw bootpath
  /\ net_config_calls res = [].
Proof.
  intros Hdev Htype res. subst res. unfold grub_machine_get_bootlocation.
  rewrite Hdev, (not_network _ _ Htype).
  split; [|split; reflexivity].
  intros ->. reflexivity.
Qed.

Lemma disk_boot_path_witness :
  loc (grub_machine_get_bootlocation (fw_disk (Some "\boot\grub\x")) unset)
  = mkLocation (Some "ieee1275/disk") (Some "/boot/grub")
  /\ device (loc (grub_machine_get_bootlocation (fw_disk None) unset))
     = Some "ieee1275/disk".
Proof.
  assert (Hne : forall f,
            grub_ieee1275_get_device_type (fw_disk f)
              "/pci/scsi/disk@0:2,\boot\grub\x" <> Some "network")
    by (intros f; discriminate).
  destruct (disk_boot_path (fw_disk (Some "\boot\grub\x"))
              "/pci/scsi/disk@0:2,\boot\grub\x" unset eq_refl (Hne _))
    as (Hpath & Hdevice & _).
  destruct (disk_boot_path (fw_disk None)
              "/pci/scsi/disk@0:2,\boot\grub\x" unset eq_refl (Hne _))
    as (_ & Hdevice' & _).
  split; [|exact Hdevice'].
  destruct (loc (grub_machine_get_bootlocation
                   (fw_disk (Some "\boot\grub\x")) unset)) as [d p].
  cbn [device path] in Hpath, Hdevice. rewrite (Hpath eq_refl), Hdevice.
  reflexivity.
Defined.

Lemma grub_strrchr_none s c :
  (forall i, String.get i s <> Some c) -> grub_strrchr s c = None.
Proof.
  induction s as [|a r IH]; intros H; simpl; [reflexivity|].
  rewrite IH.
  - destruct (Ascii.eqb a c) eqn:E; [|reflexivity].
    apply Ascii.eqb_eq in E. subst. now specialize (H O).
  - intros i. exact (H (S i)).
Qed.

(** C10: for a boot device that is not of type network, a firmware file
    name without any backslash leaves the path as it was, and the device is
    the encoded device name. *)
Theorem flat_filename_leaves_path fw bootpath filename out :
  grub_ieee1275_get_boot_dev fw = Some bootpath ->
  grub_ieee1275_get_device_type fw bootpath <> Some "network" ->
  grub_ieee1275_get_filename fw bootpath = Some filename ->
  (forall i, String.get i filename <> Some "\"%char) ->
  loc (grub_machine_get_bootlocation fw out)
  = mkLocation (grub_ieee1275_encode_devname fw bootpath) (path out).
Proof.
  intros Hdev Htype Hfile Hflat. unfold grub_machine_get_bootlocation.
  rewrite Hdev, (not_network _ _ Htype), Hfile.
  rewrite (grub_strrchr_none _ _ Hflat). reflexivity.
Qed.

Lemma flat_filename_leaves_path_witness :
  loc (grub_machine_get_bootlocation (fw_disk (Some "yaboot")) unset)
  = mkLocation (Some "ieee1275/disk") None.
Proof.
  apply (flat_filename_leaves_path (fw_disk (Some "yaboot"))
           "/pci/scsi/disk@0:2,\boot\grub\x" "yaboot" unset).
  - reflexivity.
  - discriminate.
  - reflexivity.
  - intros i. do 7 (destruct i as [|i]; [discriminate|]). discriminate.
Defined.
End BootFacts.

(** ** The command-line import *)

Module CmdlineFacts.
Import Cmdline.
Local Open Scope string_scope.

Lemma parse_loop_done fuel args actual i env :
  (actual <= Z.of_nat i)%Z -> parse_loop fuel args actual i env = Done env.
Proof.
  intros H. destruct fuel; simpl;
    replace (Z.of_nat i <? actual)%Z with false
      by (symmetry; apply Z.ltb_ge; lia); reflexivity.
Qed.




Lemma scan_token tok c rest : forall k,
  Forall (fun a => a <> c /\ a <> NUL) tok -> c <> NUL ->
  scan (tok ++ NUL :: rest) c k = Some None.
Proof.
  induction tok as [|a tok IH]; intros k Htok Hc; cbn [app scan].
  - destruct (Ascii.eqb NUL c) eqn:E.
    + apply Ascii.eqb_eq in E. congruence.
    + now rewrite Ascii.eqb_refl.
  - inversion Htok as [|a' tok' [Ha1 Ha2] Htok']; subst.
    destruct (Ascii.eqb a c) eqn:E1; [apply Ascii.eqb_eq in E1; contradiction|].
    destruct (Ascii.eqb a NUL) eqn:E2; [apply Ascii.eqb_eq in E2; contradiction|].
    now apply IH.
Qed.

(** C9: the bootargs [a=1;b=2;  c=3] set a=1, b=2 and c=3, in this order
    and nothing else, whatever follows the terminator in the buffer; a token
    without an equals sign sets nothing, be it the only token or one among
    others; and nothing is imported when the property is absent or its
    length is at most 1. *)
Theorem bootargs_import (rest : list ascii) (tok : string) (args : list ascii)
  (actual : Z) (env : Env) :
  grub_parse_cmdline (Some (buffer_of "a=1;b=2;  c=3" rest, 14%Z)) env
  = Done (grub_env_set "c" "3" (grub_env_set "b" "2" (grub_env_set "a" "1" env)))
  /\ grub_parse_cmdline (Some (buffer_of "a=1;b=2;  c=3" rest, 14%Z)) []
     = Done [("a", "1"); ("b", "2"); ("c", "3")]
  /\ (Forall plain_char (list_ascii_of_string tok) ->
      grub_parse_cmdline
        (Some (buffer_of tok rest, (Z.of_nat (String.length tok) + 1)%Z)) env
      = Done env)
  /\ grub_parse_cmdline (Some (buffer_of "a=1;quiet;c=3" rest, 14%Z)) []
     = Done [("a", "1"); ("c", "3")]
  /\ grub_parse_cmdline None env = Done env
  /\ ((actual <= 1)%Z -> grub_parse_cmdline (Some (args, actual)) env = Done env).
Proof.
  split; [reflexivity|]. split; [reflexivity|]. split.
  - intros Htok. unfold grub_parse_cmdline, buffer_of.
    destruct (Z.of_nat (String.length tok) + 1 >? 1)%Z eqn:E; [|reflexivity].
    replace (Z.to_nat (Z.of_nat (String.length tok) + 1))
      with (S (String.length tok)) by lia.
    cbn [parse_loop].
    replace (Z.of_nat 0 <? Z.of_nat (String.length tok) + 1)%Z with true
      by (symmetry; apply Z.ltb_lt; lia).
    unfold grub_strchr. cbn [skipn].
    rewrite scan_token;
      [|eapply Forall_impl; [|exact Htok]; unfold plain_char; tauto
       |discriminate].
    rewrite scan_token;
      [|eapply Forall_impl; [|exact Htok]; unfold plain_char; tauto
       |discriminate].
    apply parse_loop_done. lia.
  - split; [reflexivity|]. split; [reflexivity|].
    intros Ha. unfold grub_parse_cmdline.
    replace (actual >? 1)%Z with false
      by (symmetry; rewrite Z.gtb_ltb; apply Z.ltb_ge; lia).
    reflexivity.
Qed.

Lemma bootargs_import_witness :
  grub_parse_cmdline (Some (buffer_of "quiet" [], 6%Z)) [] = Done []
  /\ grub_parse_cmdline (Some ([NUL], 1%Z)) [] = Done [].
Proof.
  destruct (bootargs_import [] "quiet" [NUL] 1 [])
    as (_ & _ & Htok & _ & _ & Hshort).
  split.
  - apply Htok. unfold plain_char. repeat constructor; discriminate.
  - apply Hshort. lia.
Defined.
End CmdlineFacts.

(** ** The heap claim: what it asks for, and the budget *)

Module HeapMore.
Import Heap HeapFacts.

(** *** What heap_init asks of the firmware *)

Lemma Some_pair_inv {A B : Type} (x a : A) (y b : B) :
  Some (x, y) = Some (a, b) -> x = a /\ y = b.
Proof. intros H. injection H. auto. Qed.

(** The extent in hand after the clip, the low-memory trim and the
    decrement, for a sane extent: either the decrement did not wrap, or the
    extent sits at 0xffffffff and its length wrapped to 2^64 - 1. *)
Lemma trimmed_sane fw addr len a l :
  0 <= addr -> 1 <= len -> addr + len < 2 ^ 64 ->
  trimmed fw addr len = Some (a, l) ->
  0 <= a <= 0xffffffff /\ addr <= a
  /\ (FLAG_NO_PRE1_5M_CLAIM fw = true -> 0x180000 <= a)
  /\ ((0 <= l /\ a + l < addr + len /\ a + l < 0xffffffff)
      \/ (addr = 0xffffffff /\ a = 0xffffffff /\ l = 2 ^ 64 - 1)).
Proof.
  intros Ha Hl Hend Et. unfold trimmed in Et.
  destruct (addr >? 0xffffffff) eqn:E0; [discriminate|]. b2p.
  cbv zeta in Et. rewrite (u64_small (addr + len)) in Et by lia.
  destruct (addr + len >? 0xffffffff) eqn:E1; b2p.
  - rewrite (u64_small (0xffffffff - addr)) in Et by lia.
    replace (addr + (0xffffffff - addr)) with 0xffffffff in Et by lia.
    change (u64 0xffffffff) with 0xffffffff in Et.
    change (0xffffffff <=? 0x180000) with false in Et.
    rewrite andb_false_r in Et.
    destruct (FLAG_NO_PRE1_5M_CLAIM fw && (addr <? 0x180000)) eqn:E2;
      apply Some_pair_inv in Et; destruct Et as [<- <-]; b2p.
    + change (u64 (u64 (0xffffffff - 0x180000) - 1)) with (0xfffffffe - 0x180000).
      split; [lia|]. split; [lia|]. split; [lia|]. left. lia.
    + assert (Hflag : FLAG_NO_PRE1_5M_CLAIM fw = true -> 0x180000 <= addr).
      { intros Hf. rewrite Hf in E2. cbn in E2. b2p. lia. }
      split; [lia|]. split; [lia|]. split; [exact Hflag|].
      destruct (Z.eq_dec addr 0xffffffff) as [->|Hne].
      * right. repeat split; reflexivity.
      * left. rewrite u64_small by lia. lia.
  - rewrite (u64_small (addr + len)) in Et by lia.
    destruct (FLAG_NO_PRE1_5M_CLAIM fw && (addr + len <=? 0x180000)) eqn:E3;
      [discriminate|].
    destruct (FLAG_NO_PRE1_5M_CLAIM fw && (addr <? 0x180000)) eqn:E2;
      apply Some_pair_inv in Et; destruct Et as [<- <-]; b2p.
    + rewrite H in E3. cbn in E3. b2p.
      rewrite (u64_small (addr + len - 0x180000)) by lia.
      rewrite u64_small by lia.
      split; [lia|]. split; [lia|]. split; [lia|]. left. lia.
    + assert (Hflag : FLAG_NO_PRE1_5M_CLAIM fw = true -> 0x180000 <= addr).
      { intros Hf. rewrite Hf in E2. cbn in E2. b2p. lia. }
      rewrite u64_small by lia.
      split; [lia|]. split; [lia|]. split; [exact Hflag|]. left. lia.
Qed.

Lemma pair_inv {A B : Type} (x a : A) (y b : B) :
  (x, y) = (a, b) -> x = a /\ y = b.
Proof. intros H. injection H. auto. Qed.

Lemma claim_and_use_request fw a l total m r t' m' :
  0 <= l -> 0 <= total ->
  claim_and_use fw a l total m = (r, t', m') ->
  (claim_log m' = claim_log m /\ regions m' = regions m)
  \/ exists l' err,
       0 < l' /\ l' <= l /\ l' <= total
       /\ claim_log m' = claim_log m ++ [(a, l', err)]
       /\ regions m'
          = if err =? 0 then regions m ++ [(grub_addr_t a, l')] else regions m.
Proof.
  intros Hl Ht H. unfold claim_and_use in H. cbv zeta in H.
  set (l' := if l >? total then total else l) in *.
  assert (Hl' : 0 <= l' /\ l' <= l /\ l' <= total).
  { subst l'. destruct (l >? total) eqn:E; b2p; lia. }
  clearbody l'.
  destruct (negb (l' =? 0)) eqn:E0; b2p.
  - right. exists l', (grub_claimmap fw (claim_log m) a l').
    destruct (negb (grub_claimmap fw (claim_log m) a l' =? 0)) eqn:E1;
      apply (f_equal snd) in H; cbn [snd] in H; subst m'; b2p.
    + apply Z.eqb_neq in E1. rewrite E1.
      repeat split; try lia; reflexivity.
    + rewrite E1. repeat split; try lia; reflexivity.
  - left. apply (f_equal snd) in H. cbn [snd] in H. subst m'. auto.
Qed.

(** What one call of heap_init on a sane extent asks of the firmware: at
    most one claim, of a range that keeps clear of the image and of the
    window at 0x30000000, starts at or above 0x180000 under the low-memory
    flag, and (unless the extent sits at 0xffffffff) lies inside the
    extent and below 0xffffffff.  The region registered is the claim when
    the firmware grants it. *)
Lemma heap_init_request fw e total m r t' m' :
  sane_extent e -> 0 <= total ->
  heap_init fw (e_addr e) (e_len e) (e_type e) total m = (r, t', m') ->
  (claim_log m' = claim_log m /\ regions m' = regions m)
  \/ exists a l err,
       claim_log m' = claim_log m ++ [(a, l, err)]
       /\ regions m' = (if err =? 0 then regions m ++ [(a, l)] else regions m)
       /\ 0 < l <= total
       /\ clear_of_image fw (a, l, err)
       /\ clear_of_linux_window (a, l, err)
       /\ (FLAG_NO_PRE1_5M_CLAIM fw = true -> 0x180000 <= a)
       /\ e_type e = GRUB_MEMORY_AVAILABLE
       /\ (e_addr e <> 0xffffffff -> inside_extent e (a, l, err)).
Proof.
  intros (Ha & Hl & Hend) Ht H. rewrite heap_init_stages in H.
  unfold heap_init_staged in H.
  destruct (negb (e_type e =? _)) eqn:Etype.
  { left. apply (f_equal snd) in H. cbn [snd] in H. subst. auto. }
  apply negb_false_iff, Z.eqb_eq in Etype.
  destruct (trimmed fw (e_addr e) (e_len e)) as [[a l]|] eqn:Et.
  2:{ left. apply (f_equal snd) in H. cbn [snd] in H. subst. auto. }
  destruct (trimmed_sane _ _ _ _ _ Ha Hl Hend Et) as (Ha1 & Ha2 & Hflag & Hcase).
  clear Et.
  pose proof (u32_range (_end fw)) as Hend32.
  unfold own_image_guard, linux_window_guard in H.
  unfold clear_of_image, clear_of_linux_window, inside_extent. cbn [fst snd].
  destruct Hcase as [(Hl0 & Hin1 & Hin2)|(Ha3 & -> & ->)].
  - (* the decrement did not wrap *)
    rewrite (u64_small (a + l)) in H by lia.
    destruct ((a <? grub_addr_t (_end fw)) && (a + l >? grub_addr_t (_start fw)))
      eqn:Eown.
    + (* own image: length 0, nothing is asked *)
      cbv beta iota in H. rewrite Z.add_0_r, (u64_small a) in H by lia.
      replace ((a <? 0x30000000) && (a >? 0x30000000)) with false in H.
      2:{ symmetry. apply andb_false_iff. rewrite Z.gtb_ltb.
          destruct (a <? 0x30000000) eqn:E; b2p; [right|left; reflexivity].
          apply Z.ltb_ge. lia. }
      apply claim_and_use_request in H; [|lia|lia].
      destruct H as [H|(l' & err & K1 & K2 & _)]; [|lia].
      left. exact H.
    + assert (Hown : ~ (a < grub_addr_t (_end fw)
                         /\ grub_addr_t (_start fw) < a + l)).
      { intros [H1 H2]. apply andb_false_iff in Eown.
        destruct Eown as [E|E]; [|rewrite Z.gtb_ltb in E]; b2p; lia. }
      cbv beta iota in H. rewrite (u64_small (a + l)) in H by lia.
      destruct ((a <? 0x30000000) && (a + l >? 0x30000000)) eqn:Ewin;
        cbv beta iota in H.
      * b2p. rewrite (u64_small (0x30000000 - a)) in H by lia.
        rewrite (u64_small (l - (0x30000000 - a))) in H by lia.
        apply claim_and_use_request in H; [|lia|lia].
        destruct H as [H|(l' & err & K1 & K2 & K3 & K4 & K5)]; [now left|].
        right. exists 0x30000000, l', err.
        change (grub_addr_t 0x30000000) with 0x30000000 in K5.
        split; [exact K4|]. split; [exact K5|].
        split; [lia|]. split; [intros x Hx; lia|].
        split; [lia|]. split; [intros _; lia|]. split; [exact Etype|]. intros _. lia.
      * assert (Hwin : ~ (a < 0x30000000 /\ 0x30000000 < a + l)).
        { intros [H1 H2]. apply andb_false_iff in Ewin.
          destruct Ewin as [E|E]; [|rewrite Z.gtb_ltb in E]; b2p; lia. }
        apply claim_and_use_request in H; [|lia|lia].
        destruct H as [H|(l' & err & K1 & K2 & K3 & K4 & K5)]; [now left|].
        right. exists a, l', err.
        replace (grub_addr_t a) with a in K5
          by (symmetry; unfold grub_addr_t; apply u32_small; lia).
        split; [exact K4|]. split; [exact K5|].
        split; [lia|]. split; [intros x Hx; lia|].
        split; [lia|]. split; [exact Hflag|]. split; [exact Etype|]. intros _. lia.
  - (* the extent sits at 0xffffffff and its length wrapped *)
    replace (0xffffffff <? grub_addr_t (_end fw)) with false in H
      by (symmetry; apply Z.ltb_ge; unfold grub_addr_t; lia).
    cbn [andb] in H. cbv beta iota in H.
    change ((0xffffffff <? 0x30000000)
            && (u64 (0xffffffff + (2 ^ 64 - 1)) >? 0x30000000))
      with false in H.
    cbv beta iota in H.
    apply claim_and_use_request in H; [|lia|lia].
    destruct H as [H|(l' & err & K1 & K2 & K3 & K4 & K5)]; [now left|].
    right. exists 0xffffffff, l', err.
    change (grub_addr_t 0xffffffff) with 0xffffffff in K5.
    split; [exact K4|]. split; [exact K5|].
    split; [lia|]. split; [intros x Hx; unfold grub_addr_t; lia|].
    split; [lia|]. split; [intros _; lia|]. split; [exact Etype|].
    intros Hne. contradiction.
Qed.

Lemma granted_app xs ys : granted (xs ++ ys) = granted xs ++ granted ys.
Proof. unfold granted. now rewrite filter_app, map_app. Qed.

Lemma lawful_weaken fw mmap mmap' total total' c :
  incl mmap mmap' -> total <= total' ->
  lawful fw mmap total c -> lawful fw mmap' total' c.
Proof.
  intros Hi Ht (H1 & H2 & H3 & H4 & e & H5 & H6).
  repeat split; try assumption; try lia.
  exists e. split; [now apply Hi|exact H6].
Qed.

(** The claim calls of a whole claim pass over sane extents. *)
Lemma claim_pass_requests fw mmap : forall total m t' m' rest,
  Forall sane_extent mmap -> 0 <= total < 2 ^ 32 ->
  grub_machine_mmap_iterate (heap_init fw) mmap total m = (t', m', rest) ->
  exists news,
    claim_log m' = claim_log m ++ news
    /\ regions m' = regions m ++ granted news
    /\ Forall (lawful fw mmap total) news.
Proof.
  induction mmap as [|e mmap IH]; intros total m t' m' rest Hs Ht H;
    simpl in H.
  - apply pair_inv in H. destruct H as [H _]. apply pair_inv in H.
    destruct H as [_ <-]. exists []. rewrite !app_nil_r. auto.
  - inversion Hs as [|e' mmap' Hse Hsm]; subst.
    destruct (heap_init fw _ _ _ total m) as [[r d1] m1] eqn:Eh.
    pose proof (heap_init_visit _ _ _ _ _ _ _ _ _ Ht Eh) as Hv.
    apply visit_account in Hv. destruct Hv as (Hd1 & Hd2 & _).
    apply heap_init_request in Eh; [|exact Hse|lia].
    assert (Hstep : exists n1,
               claim_log m1 = claim_log m ++ n1
               /\ regions m1 = regions m ++ granted n1
               /\ Forall (lawful fw (e :: mmap) total) n1).
    { destruct Eh as [[Hc Hr]|(a & l & err & Hc & Hr & Hl & H1 & H2 & H3 & H4 & H5)].
      - exists []. rewrite !app_nil_r. auto.
      - exists [(a, l, err)]. split; [exact Hc|]. split.
        + rewrite Hr. unfold granted, claim_ok. cbn [filter snd].
          destruct (err =? 0); cbn [map fst]; [reflexivity|now rewrite app_nil_r].
        + constructor; [|constructor]. unfold lawful. cbn [fst snd].
          repeat split; try assumption; try lia.
          exists e. split; [now left|]. split; assumption. }
    destruct Hstep as (n1 & Hc1 & Hr1 & Hf1).
    destruct (r =? 0).
    + apply IH in H; [|exact Hsm|lia].
      destruct H as (n2 & Hc2 & Hr2 & Hf2).
      exists (n1 ++ n2). rewrite Hc2, Hr2, Hc1, Hr1, granted_app, !app_assoc.
      split; [reflexivity|]. split; [reflexivity|].
      apply Forall_app. split; [exact Hf1|].
      eapply Forall_impl; [|exact Hf2]. intros c.
      apply lawful_weaken; [apply incl_tl, incl_refl|lia].
    + apply pair_inv in H. destruct H as [H _]. apply pair_inv in H.
      destruct H as [_ <-]. exists n1. auto.
Qed.

(** The claim calls of grub_claim_heap over sane extents, on either of its
    two paths. *)
Lemma claim_heap_requests fw mmap m :
  Forall sane_extent mmap ->
  exists news,
    claim_log (snd (grub_claim_heap fw mmap m)) = claim_log m ++ news
    /\ regions (snd (grub_claim_heap fw mmap m)) = regions m ++ granted news
    /\ Forall (lawful fw mmap (claim_budget fw mmap)) news.
Proof.
  intros Hs. destruct (FLAG_FORCE_CLAIM fw) eqn:Hf.
  - unfold grub_claim_heap. rewrite Hf. cbv zeta.
    destruct (heap_init fw _ _ 1 0 m) as [[r t'] m'] eqn:Eh. cbn [snd].
    apply heap_init_visit in Eh; [|lia].
    exists []. rewrite !app_nil_r.
    destruct Eh as [r m' Hc Hr _|a l m' Hl _ _ _|a l err m' Hl _ _ _ _];
      [auto|lia|lia].
  - rewrite (grub_claim_heap_dynamic _ _ _ Hf). cbn [snd].
    destruct (grub_machine_mmap_iterate (heap_init fw) mmap
                (claim_budget fw mmap) m) as [[t' m'] rest] eqn:Ei.
    cbn [fst snd].
    exact (claim_pass_requests _ _ _ _ _ _ _ Hs (claim_budget_range fw mmap) Ei).
Qed.

Lemma sample_map_sane : Forall sane_extent sample_map.
Proof. repeat constructor; cbn; lia. Qed.

(** *** Safety of the claims *)



(** X2: over a map of sane extents no range that grub_claim_heap asks for
    starts below 0x30000000 and ends above it. *)
Theorem claims_clear_of_linux_window fw mmap m :
  Forall sane_extent mmap ->
  exists news,
    claim_log (snd (grub_claim_heap fw mmap m)) = claim_log m ++ news
    /\ Forall clear_of_linux_window news.
Proof.
  intros Hs. destruct (claim_heap_requests fw mmap m Hs) as (news & Hc & _ & Hf).
  exists news. split; [exact Hc|].
  eapply Forall_impl; [|exact Hf]. intros c H. apply H.
Qed.

Lemma claims_clear_of_linux_window_witness :
  exists news,
    claim_log (snd (grub_claim_heap fw_ok sample_map empty_machine))
    = claim_log empty_machine ++ news
    /\ Forall clear_of_linux_window news.
Proof.
  exact (claims_clear_of_linux_window fw_ok sample_map empty_machine
           sample_map_sane).
Defined.

(** X3: with the flag GRUB_IEEE1275_FLAG_NO_PRE1_5M_CLAIM set, every range
    that grub_claim_heap asks for over a map of sane extents starts at or
    above 0x180000. *)
Theorem claims_above_low_memory fw mmap m :
  FLAG_NO_PRE1_5M_CLAIM fw = true ->
  Forall sane_extent mmap ->
  exists news,
    claim_log (snd (grub_claim_heap fw mmap m)) = claim_log m ++ news
    /\ Forall (fun c => 0x180000 <= fst (fst c)) news.
Proof.
  intros Hflag Hs.
  destruct (claim_heap_requests fw mmap m Hs) as (news & Hc & _ & Hf).
  exists news. split; [exact Hc|].
  eapply Forall_impl; [|exact Hf]. intros c H. now apply H.
Qed.

Lemma claims_above_low_memory_witness :
  exists news,
    claim_log (snd (grub_claim_heap fw_low_memory sample_map empty_machine))
    = claim_log empty_machine ++ news
    /\ Forall (fun c => 0x180000 <= fst (fst c)) news.
Proof.
  exact (claims_above_low_memory fw_low_memory sample_map empty_machine
           eq_refl sample_map_sane).
Defined.

(** X4: over a map of sane extents none of which sits at 0xffffffff, every
    range that grub_claim_heap asks for lies inside an Available extent of
    the map and ends below 0xffffffff, and its length is positive and
    within the derived budget. *)
Theorem claims_inside_available_extents fw mmap m :
  Forall sane_extent mmap ->
  Forall (fun e => e_addr e <> 0xffffffff) mmap ->
  exists news,
    claim_log (snd (grub_claim_heap fw mmap m)) = claim_log m ++ news
    /\ Forall (fun c =>
                 0 < snd (fst c) <= claim_budget fw mmap
                 /\ exists e, In e mmap
                              /\ e_type e = GRUB_MEMORY_AVAILABLE
                              /\ inside_extent e c) news.
Proof.
  intros Hs Hne.
  destruct (claim_heap_requests fw mmap m Hs) as (news & Hc & _ & Hf).
  exists news. split; [exact Hc|].
  eapply Forall_impl; [|exact Hf].
  intros c (H1 & _ & _ & _ & e & He & Ht & Hin).
  split; [exact H1|]. exists e. split; [exact He|]. split; [exact Ht|].
  apply Hin. rewrite Forall_forall in Hne. now apply Hne.
Qed.

Lemma claims_inside_available_extents_witness :
  exists news,
    claim_log (snd (grub_claim_heap fw_ok sample_map empty_machine))
    = claim_log empty_machine ++ news
    /\ Forall (fun c =>
                 0 < snd (fst c) <= claim_budget fw_ok sample_map
                 /\ exists e, In e sample_map
                              /\ e_type e = GRUB_MEMORY_AVAILABLE
                              /\ inside_extent e c) news.
Proof.
  apply (claims_inside_available_extents fw_ok sample_map empty_machine
           sample_map_sane).
  repeat constructor; discriminate.
Defined.

(** X5: over a map of sane extents the regions that grub_claim_heap hands
    to grub_mm_init_region are the ranges of the claims the firmware
    granted, with the same addresses and lengths and in the same order. *)
Theorem regions_are_granted_claims fw mmap m :
  Forall sane_extent mmap ->
  regions m = granted (claim_log m) ->
  regions (snd (grub_claim_heap fw mmap m))
  = granted (claim_log (snd (grub_claim_heap fw mmap m))).
Proof.
  intros Hs Hm.
  destruct (claim_heap_requests fw mmap m Hs) as (news & Hc & Hr & _).
  rewrite Hc, Hr, granted_app, Hm. reflexivity.
Qed.

Lemma regions_are_granted_claims_witness :
  regions (snd (grub_claim_heap fw_second_fails sample_map empty_machine))
  = granted
      (claim_log (snd (grub_claim_heap fw_second_fails sample_map
                         empty_machine))).
Proof.
  exact (regions_are_granted_claims fw_second_fails sample_map empty_machine
           sample_map_sane eq_refl).
Defined.

(** *** The size pass and the budget *)

Lemma heap_size_counted e d m :
  0 <= d < 2 ^ 32 ->
  heap_size (e_addr e) (e_len e) (e_type e) d m = (0, u32 (d + counted e), m).
Proof.
  intros Hd. unfold heap_size, counted.
  destruct (negb (e_type e =? GRUB_MEMORY_AVAILABLE));
    [now rewrite Z.add_0_r, u32_small|].
  destruct (e_addr e >? 0xffffffff); [now rewrite Z.add_0_r, u32_small|].
  reflexivity.
Qed.

Lemma u32_add_l a b : u32 (u32 a + b) = u32 (a + b).
Proof. unfold u32. apply Zplus_mod_idemp_l. Qed.

Lemma size_pass_sum mmap : forall d m,
  0 <= d < 2 ^ 32 ->
  fst (fst (grub_machine_mmap_iterate heap_size mmap d m))
  = u32 (d + sum_counted mmap).
Proof.
  induction mmap as [|e mmap IH]; intros d m Hd.
  - cbn. now rewrite Z.add_0_r, u32_small.
  - cbn [grub_machine_mmap_iterate sum_counted fold_right].
    rewrite heap_size_counted by exact Hd. cbn [Z.eqb].
    rewrite IH by apply u32_range. fold (sum_counted mmap).
    rewrite u32_add_l. f_equal. lia.
Qed.

(** X6: the raw total that the size pass of grub_claim_heap leaves is the
    sum, truncated to 32 bits, of what each extent counts for: nothing for
    an extent that is not Available or starts above 0xffffffff, else its
    length, clipped to 0xffffffff - addr when it ends above 0xffffffff. *)
Theorem size_pass_total mmap m :
  grub_machine_mmap_iterate heap_size mmap 0 m
  = (u32 (sum_counted mmap), m, []).
Proof.
  rewrite size_pass_pure. f_equal. f_equal.
  rewrite size_pass_sum by lia. reflexivity.
Qed.

Lemma sum_counted_perm mmap mmap' :
  Permutation mmap mmap' -> sum_counted mmap = sum_counted mmap'.
Proof.
  intros H. unfold sum_counted.
  induction H; cbn [fold_right] in *; lia.
Qed.

(** X7: the raw total of the size pass, and with it the budget of the
    claim pass, does not depend on the order in which the firmware reports
    the extents. *)
Theorem size_pass_order_irrelevant fw mmap mmap' m :
  Permutation mmap mmap' ->
  fst (fst (grub_machine_mmap_iterate heap_size mmap 0 m))
  = fst (fst (grub_machine_mmap_iterate heap_size mmap' 0 m))
  /\ claim_budget fw mmap = claim_budget fw mmap'.
Proof.
  intros H. assert (Hraw : raw_total mmap = raw_total mmap').
  { unfold raw_total. rewrite !size_pass_sum by lia.
    now rewrite (sum_counted_perm _ _ H). }
  split.
  - rewrite (size_pass_pure mmap), (size_pass_pure mmap'). exact Hraw.
  - unfold claim_budget. now rewrite Hraw.
Qed.

Lemma size_pass_order_irrelevant_witness :
  fst (fst (grub_machine_mmap_iterate heap_size sample_map 0 empty_machine))
  = fst (fst (grub_machine_mmap_iterate heap_size (rev sample_map) 0
                empty_machine))
  /\ claim_budget fw_ok sample_map = claim_budget fw_ok (rev sample_map).
Proof.
  apply (size_pass_order_irrelevant fw_ok sample_map (rev sample_map)
           empty_machine).
  apply Permutation_rev.
Defined.

(** X8: when the raw total of the size pass is below 4, as for a map
    without an Available extent below 0xffffffff, the derived budget is 0
    and grub_claim_heap asks the firmware for nothing and registers
    nothing. *)
Theorem tiny_total_claims_nothing fw mmap m :
  FLAG_FORCE_CLAIM fw = false ->
  raw_total mmap < 4 ->
  claim_log (snd (grub_claim_heap fw mmap m)) = claim_log m
  /\ regions (snd (grub_claim_heap fw mmap m)) = regions m.
Proof.
  intros Hf Hraw. rewrite (grub_claim_heap_dynamic _ _ _ Hf). cbn [snd].
  assert (Hb : claim_budget fw mmap = 0).
  { unfold claim_budget. pose proof (raw_total_range mmap) as Hr.
    assert (raw_total mmap / 4 = 0) by (apply Z.div_small; lia).
    assert (0 < HEAP_MAX_SIZE (plat fw)) by (destruct (plat fw); reflexivity).
    lia. }
  rewrite Hb. clear Hb Hraw.
  generalize dependent m.
  induction mmap as [|e mmap IH]; intros m; [auto|].
  cbn [grub_machine_mmap_iterate].
  destruct (heap_init fw _ _ _ 0 m) as [[r d1] m1] eqn:Eh.
  apply heap_init_visit in Eh; [|lia].
  assert (Hstep : d1 = 0 /\ claim_log m1 = claim_log m
                  /\ regions m1 = regions m).
  { destruct Eh as [r m1 Hc Hr _|a l m1 Hl _ _ _|a l err m1 Hl _ _ _ _];
      [auto|lia|lia]. }
  destruct Hstep as (-> & Hc & Hr).
  destruct (r =? 0).
  - rewrite <- Hc, <- Hr. apply IH.
  - cbn [fst snd]. auto.
Qed.

Lemma tiny_total_claims_nothing_witness :
  grub_claim_heap fw_ok
    [mkExtent 0x0 0x4000 GRUB_MEMORY_RESERVED;
     mkExtent 0x100000000 0x40000000 GRUB_MEMORY_AVAILABLE] empty_machine
  = (tt, empty_machine)
  /\ claim_log (snd (grub_claim_heap fw_ok
       [mkExtent 0x0 0x4000 GRUB_MEMORY_RESERVED;
        mkExtent 0x100000000 0x40000000 GRUB_MEMORY_AVAILABLE]
       empty_machine)) = [].
Proof.
  split; [reflexivity|].
  apply (tiny_total_claims_nothing fw_ok
           [mkExtent 0x0 0x4000 GRUB_MEMORY_RESERVED;
            mkExtent 0x100000000 0x40000000 GRUB_MEMORY_AVAILABLE]
           empty_machine).
  - reflexivity.
  - vm_compute. reflexivity.
Defined.

(** X9: on powerpc the cap HEAP_MAX_SIZE never takes effect: a quarter of
    a 32-bit total is below 1 GiB, so the claim pass always runs with
    exactly raw total / 4. *)
Theorem powerpc_cap_never_applies fw mmap m :
  plat fw = PowerPC ->
  FLAG_FORCE_CLAIM fw = false ->
  grub_claim_heap fw mmap m
  = (tt, snd (fst (grub_machine_mmap_iterate (heap_init fw) mmap
                     (raw_total mmap / 4) m))).
Proof.
  intros Hp Hf. rewrite (grub_claim_heap_dynamic _ _ _ Hf).
  replace (claim_budget fw mmap) with (raw_total mmap / 4); [reflexivity|].
  unfold claim_budget. rewrite Hp. cbn [HEAP_MAX_SIZE].
  pose proof (raw_total_range mmap) as Hr.
  assert (raw_total mmap / 4 < 1 * 1024 * 1024 * 1024)
    by (apply Z.div_lt_upper_bound; lia).
  lia.
Qed.

Lemma powerpc_cap_never_applies_witness :
  grub_claim_heap fw_ok sample_map empty_machine
  = (tt, snd (fst (grub_machine_mmap_iterate (heap_init fw_ok) sample_map
                     (raw_total sample_map / 4) empty_machine))).
Proof.
  exact (powerpc_cap_never_applies fw_ok sample_map empty_machine
           eq_refl eq_refl).
Defined.
End HeapMore.

(** ** The boot location: translation, directory and device name *)

Module BootMore.
Import Boot BootFacts.
Local Open Scope string_scope.

(** *** grub_translate_ieee1275_path, as a whole *)

Lemma replace_backslashes_length s :
  String.length (replace_backslashes s) = String.length s.
Proof. induction s as [|a r IH]; simpl; congruence. Qed.

Lemma replace_backslashes_get s : forall i,
  String.get i (replace_backslashes s)
  = option_map (fun c => if Ascii.eqb c "\" then "/"%char else c)
               (String.get i s).
Proof.
  induction s as [|a r IH]; intros i; simpl; [reflexivity|].
  destruct i as [|i]; [reflexivity|]. apply IH.
Qed.

Lemma replace_backslashes_clean s :
  grub_strchr (replace_backslashes s) "\" = None.
Proof.
  induction s as [|a r IH]; simpl; [reflexivity|]. rewrite IH.
  destruct (Ascii.eqb a "\") eqn:E; [reflexivity|]. now rewrite E.
Qed.

(** X10: grub_translate_ieee1275_path keeps the length of the path, turns
    every backslash into a forward slash, leaves every other character as
    it is, and so leaves no backslash behind. *)
Theorem translate_path_spec s :
  String.length (grub_translate_ieee1275_path s) = String.length s
  /\ (forall i,
        String.get i (grub_translate_ieee1275_path s)
        = option_map (fun c => if Ascii.eqb c "\" then "/"%char else c)
                     (String.get i s))
  /\ grub_strchr (grub_translate_ieee1275_path s) "\" = None.
Proof.
  rewrite translate_loop_enough.
  split; [apply replace_backslashes_length|].
  split; [apply replace_backslashes_get|apply replace_backslashes_clean].
Qed.

(** *** The directory of the boot file *)

Lemma grub_strrchr_app dir leaf :
  (forall i, String.get i leaf <> Some "\"%char) ->
  grub_strrchr (dir ++ String "\" leaf) "\" = Some (String.length dir).
Proof.
  intros Hleaf. induction dir as [|a r IH]; simpl.
  - now rewrite (grub_strrchr_none _ _ Hleaf).
  - now rewrite IH.
Qed.

Lemma substring_app_length dir rest :
  substring 0 (String.length dir) (dir ++ rest) = dir.
Proof.
  induction dir as [|a r IH]; simpl.
  - destruct rest; reflexivity.
  - now rewrite IH.
Qed.

(** X11: for a boot device that is not of type network, when the firmware
    file name is a directory, a backslash and a leaf name without
    backslash, the resolver sets the path to the directory with every
    backslash turned into a forward slash, and the device to the encoded
    device name. *)
Theorem directory_of_boot_file fw bootpath dir leaf out :
  grub_ieee1275_get_boot_dev fw = Some bootpath ->
  grub_ieee1275_get_device_type fw bootpath <> Some "network" ->
  grub_ieee1275_get_filename fw bootpath = Some (dir ++ String "\" leaf) ->
  (forall i, String.get i leaf <> Some "\"%char) ->
  loc (grub_machine_get_bootlocation fw out)
  = mkLocation (grub_ieee1275_encode_devname fw bootpath)
               (Some (replace_backslashes dir)).
Proof.
  intros Hdev Htype Hfile Hleaf. unfold grub_machine_get_bootlocation.
  rewrite Hdev, (not_network _ _ Htype), Hfile.
  rewrite (grub_strrchr_app _ _ Hleaf). unfold terminate_at.
  rewrite substring_app_length, translate_loop_enough. reflexivity.
Qed.

Lemma directory_of_boot_file_witness :
  loc (grub_machine_get_bootlocation
         (fw_disk (Some "\ppc\chrp\bootinfo.txt")) unset)
  = mkLocation (Some "ieee1275/disk") (Some "/ppc/chrp").
Proof.
  apply (directory_of_boot_file (fw_disk (Some "\ppc\chrp\bootinfo.txt"))
           "/pci/scsi/disk@0:2,\boot\grub\x" "\ppc\chrp" "bootinfo.txt" unset).
  - reflexivity.
  - discriminate.
  - reflexivity.
  - intros i. do 12 (destruct i as [|i]; [discriminate|]). discriminate.
Defined.

(** *** The name passed to the network callback *)

Lemma substring_all s : substring 0 (String.length s) s = s.
Proof. induction s as [|a r IH]; simpl; [reflexivity|now rewrite IH]. Qed.

(** A name that is empty or does not end in a comma or a colon is left as
    it is. *)
Lemma strip_canon_clean canon :
  (canon = ""
   \/ exists c, String.get (String.length canon - 1) canon = Some c
                /\ is_separator c = false) ->
  strip_canon canon = canon.
Proof.
  intros [->|(c & Hc & Hs)]; [reflexivity|].
  destruct (string_dec canon "") as [->|Hne]; [reflexivity|].
  rewrite (strip_canon_eq _ Hne).
  assert (Hlen : (0 < String.length canon)%nat).
  { destruct canon; [contradiction|simpl; lia]. }
  assert (Hq : strip_loop canon (String.length canon - 1)
               = (String.length canon - 1)%nat).
  { destruct (String.length canon - 1)%nat as [|p] eqn:Ep; [reflexivity|].
    cbn [strip_loop]. rewrite Hc, Hs. reflexivity. }
  rewrite Hq.
  replace (S (String.length canon - 1)) with (String.length canon) by lia.
  apply substring_all.
Qed.

Lemma strip_canon_short canon :
  (String.length canon <= 1)%nat -> strip_canon canon = canon.
Proof.
  intros H. destruct canon as [|a [|b r]]; [reflexivity|reflexivity|].
  simpl in H. lia.
Qed.

(** X12: the walk over the canonical name is idempotent: a name it has
    left is left as it is by a second walk. *)
Theorem strip_canon_idempotent canon :
  strip_canon (strip_canon canon) = strip_canon canon.
Proof.
  destruct (strip_canon_spec canon) as (Hpre & _ & Hlast & _).
  set (name := strip_canon canon) in *.
  destruct Hlast as [Hshort|(c & Hc & Hs)].
  - now apply strip_canon_short.
  - destruct (Nat.le_gt_cases (String.length name) 1) as [Hle|Hgt];
      [now apply strip_canon_short|].
    apply strip_canon_clean. right. exists c. split; [|exact Hs].
    rewrite Hpre at 2. rewrite substring_correct1 by lia.
    now rewrite Nat.add_0_r.
Qed.

(** X13: for a boot device of type network whose canonical name is not
    empty and does not end in a comma or a colon, the registered callback
    receives the canonical name as it is. *)
Theorem clean_name_passed_unchanged fw bootpath canon net_config c out :
  grub_ieee1275_get_boot_dev fw = Some bootpath ->
  grub_ieee1275_get_device_type fw bootpath = Some "network" ->
  grub_ieee1275_canonicalise_devname fw
    (grub_ieee1275_get_aliasdevname fw bootpath) = Some canon ->
  grub_ieee1275_net_config fw = Some net_config ->
  String.get (String.length canon - 1) canon = Some c ->
  is_separator c = false ->
  grub_machine_get_bootlocation fw out
  = mkResolved (net_config canon out bootpath) [(canon, bootpath)].
Proof.
  intros Hdev Htype Hcanon Hcb Hc Hs. unfold grub_machine_get_bootlocation.
  rewrite Hdev, Htype, Hcanon, Hcb. cbn [String.eqb Ascii.eqb Bool.eqb].
  rewrite strip_canon_clean; [reflexivity|].
  right. now exists c.
Qed.

Lemma clean_name_passed_unchanged_witness :
  grub_machine_get_bootlocation (fw_net "/vdevice/l-lan@30000002") unset
  = mkResolved (mkLocation (Some "/vdevice/l-lan@30000002")
                           (Some "net:10.0.0.1"))
               [("/vdevice/l-lan@30000002", "net:10.0.0.1")].
Proof.
  apply (clean_name_passed_unchanged (fw_net "/vdevice/l-lan@30000002")
           "net:10.0.0.1" "/vdevice/l-lan@30000002" sample_net_config
           "2"%char unset); reflexivity.
Defined.

(** X14: the resolver gives up without a trace when the firmware names no
    boot device, and, for a device of type network, when the alias name
    does not canonicalise: the out-parameters are left as they were and the
    callback, even if registered, is not called. *)
Theorem resolver_gives_up fw out :
  (grub_ieee1275_get_boot_dev fw = None
   \/ exists bootpath,
        grub_ieee1275_get_boot_dev fw = Some bootpath
        /\ grub_ieee1275_get_device_type fw bootpath = Some "network"
        /\ grub_ieee1275_canonicalise_devname fw
             (grub_ieee1275_get_aliasdevname fw bootpath) = None) ->
  grub_machine_get_bootlocation fw out = mkResolved out [].
Proof.
  intros [Hdev|(bootpath & Hdev & Htype & Hcanon)];
    unfold grub_machine_get_bootlocation; rewrite Hdev; [reflexivity|].
  rewrite Htype, Hcanon. reflexivity.
Qed.

Lemma resolver_gives_up_witness :
  grub_machine_get_bootlocation
    (mkFirmware (Some "net") (fun _ => Some "network") (fun _ => None)
                (fun _ => None) (fun _ => None) (fun _ => None)
                (Some sample_net_config)) unset
  = mkResolved unset [].
Proof.
  apply resolver_gives_up. right. exists "net".
  repeat split; reflexivity.
Defined.
End BootMore.

(** ** The command-line import as a function of the line *)

Module CmdlineMore.
Import Cmdline CmdlineFacts.
Local Open Scope char_scope.

(** *** The buffer operations on a known layout *)

Lemma skipn_app_length {A : Type} (pre l : list A) :
  skipn (List.length pre) (pre ++ l) = l.
Proof. induction pre as [|a pre IH]; simpl; auto. Qed.

Lemma store_app (pre l : list ascii) k c :
  store (pre ++ l) (List.length pre + k) c = pre ++ store l k c.
Proof. induction pre as [|a pre IH]; simpl; [reflexivity|now rewrite IH]. Qed.

Lemma store_at (tok rest : list ascii) a c :
  store (tok ++ a :: rest) (List.length tok) c = tok ++ c :: rest.
Proof. induction tok as [|b tok IH]; simpl; [reflexivity|now rewrite IH]. Qed.

Lemma scan_hit tok c rest : forall k,
  Forall (fun a => a <> c /\ a <> NUL) tok ->
  scan (tok ++ c :: rest) c k = Some (Some (k + List.length tok)%nat).
Proof.
  induction tok as [|a tok IH]; intros k Htok; cbn [app scan List.length].
  - rewrite Ascii.eqb_refl. f_equal. f_equal. lia.
  - inversion Htok as [|a' tok' [Ha1 Ha2] Htok']; subst.
    destruct (Ascii.eqb a c) eqn:E1; [apply Ascii.eqb_eq in E1; contradiction|].
    destruct (Ascii.eqb a NUL) eqn:E2; [apply Ascii.eqb_eq in E2; contradiction|].
    rewrite IH by assumption. f_equal. f_equal. lia.
Qed.

Lemma cstring_token tok rest :
  Forall (fun a => a <> NUL) tok ->
  cstring (tok ++ NUL :: rest) = Some (string_of_list_ascii tok).
Proof.
  induction tok as [|a tok IH]; intros Htok; cbn [app cstring].
  - now rewrite Ascii.eqb_refl.
  - inversion Htok as [|a' tok' Ha Htok']; subst.
    destruct (Ascii.eqb a NUL) eqn:E; [apply Ascii.eqb_eq in E; contradiction|].
    now rewrite IH.
Qed.

Lemma skip_space_stop ws a l : forall i,
  Forall (fun c => grub_isspace c = true) ws -> grub_isspace a = false ->
  skip_space (ws ++ a :: l) i = Some (i + List.length ws)%nat.
Proof.
  induction ws as [|c ws IH]; intros i Hws Ha; cbn [app skip_space List.length].
  - rewrite Ha. f_equal. lia.
  - inversion Hws as [|c' ws' Hc Hws']; subst. rewrite Hc.
    rewrite IH by assumption. f_equal. lia.
Qed.

(** *** Segments *)

Lemma lstrip_split l :
  exists ws, l = ws ++ lstrip l
             /\ Forall (fun c => grub_isspace c = true) ws
             /\ match lstrip l with
                | [] => True
                | a :: _ => grub_isspace a = false
                end.
Proof.
  induction l as [|a l (ws & Hl & Hws & Hhead)]; cbn [lstrip].
  - exists []. auto.
  - destruct (grub_isspace a) eqn:E.
    + exists (a :: ws). split; [cbn; now rewrite <- Hl|]. split; [|exact Hhead].
      now constructor.
    + exists []. split; [reflexivity|]. split; [constructor|exact E].
Qed.

Lemma lstrip_segment l :
  Forall segment_char l -> Forall segment_char (lstrip l).
Proof.
  induction l as [|a l IH]; intros H; cbn [lstrip]; [constructor|].
  destruct (grub_isspace a); [|exact H].
  inversion H; subst. now apply IH.
Qed.

Lemma split_eq_some l : forall k v,
  split_eq l = Some (k, v) ->
  l = k ++ "=" :: v /\ Forall (fun a => a <> "=") k.
Proof.
  induction l as [|a l IH]; intros k v H; cbn [split_eq] in H; [discriminate|].
  destruct (Ascii.eqb a "=") eqn:E.
  - apply Ascii.eqb_eq in E. subst. inversion H; subst. split; [reflexivity|constructor].
  - destruct (split_eq l) as [[k' v']|]; [|discriminate].
    inversion H; subst. destruct (IH k' v eq_refl) as [-> Hk].
    split; [reflexivity|]. constructor; [|exact Hk].
    now apply Ascii.eqb_neq.
Qed.

Lemma split_eq_none l :
  split_eq l = None -> Forall (fun a => a <> "=") l.
Proof.
  induction l as [|a l IH]; intros H; cbn [split_eq] in H; [constructor|].
  destruct (Ascii.eqb a "=") eqn:E; [discriminate|].
  destruct (split_eq l) as [[k' v']|]; [discriminate|].
  constructor; [now apply Ascii.eqb_neq|now apply IH].
Qed.

(** *** One round of the loop *)

(** The second half of a round, on a command that ends at a terminator:
    the variable of the segment is set, and the buffer keeps its layout. *)
Lemma assign_step fuel pre seg after actual i env :
  Forall segment_char seg ->
  exists seg',
    List.length seg' = List.length seg
    /\ match grub_strchr (pre ++ seg ++ NUL :: after) (List.length pre) "=" with
       | None => OutOfBounds
       | Some None =>
           parse_loop fuel (pre ++ seg ++ NUL :: after) actual i env
       | Some (Some val) =>
           let args := store (pre ++ seg ++ NUL :: after) val NUL in
           match cstring_at args (List.length pre), cstring_at args (S val) with
           | Some name, Some value =>
               parse_loop fuel args actual i (grub_env_set name value env)
           | _, _ => OutOfBounds
           end
       end
       = parse_loop fuel (pre ++ seg' ++ NUL :: after) actual i
                    (env ++ assignment seg).
Proof.
  intros Hseg. unfold grub_strchr, assignment. rewrite skipn_app_length.
  destruct (split_eq seg) as [[k v]|] eqn:Es.
  - destruct (split_eq_some _ _ _ Es) as [-> Hk].
    apply Forall_app in Hseg. destruct Hseg as [Hk' Hv].
    inversion Hv as [|a v' _ Hv']; subst.
    exists (k ++ NUL :: v). split; [now rewrite !length_app|].
    rewrite <- app_assoc. cbn [app].
    rewrite scan_hit.
    2:{ rewrite Forall_forall in *. intros a Ha. split; [now apply Hk|].
        now apply Hk'. }
    cbv zeta. rewrite store_app, store_at.
    unfold cstring_at. rewrite skipn_app_length.
    rewrite cstring_token.
    2:{ eapply Forall_impl; [|exact Hk']. intros a Ha. apply Ha. }
    replace (pre ++ k ++ NUL :: v ++ NUL :: after)
      with ((pre ++ k ++ [NUL]) ++ v ++ NUL :: after)
      by (rewrite <- !app_assoc; reflexivity).
    replace (S (List.length pre + List.length k))
      with (List.length (pre ++ k ++ [NUL]))
      by (rewrite !length_app; simpl; lia).
    rewrite skipn_app_length.
    rewrite cstring_token.
    2:{ eapply Forall_impl; [|exact Hv']. intros a Ha. apply Ha. }
    rewrite <- !app_assoc. reflexivity.
  - exists seg. split; [reflexivity|].
    rewrite scan_token.
    + now rewrite app_nil_r.
    + pose proof (split_eq_none _ Es) as Hne. rewrite Forall_forall in *.
      intros a Ha. split; [now apply Hne|]. now apply Hseg.
    + discriminate.
Qed.

Lemma next_not_space (l : list ascii) rest tail :
  match l with [] => True | a :: _ => grub_isspace a = false end ->
  exists a x, l ++ join_tail rest ++ NUL :: tail = a :: x
              /\ grub_isspace a = false.
Proof.
  intros H. destruct l as [|a l].
  - destruct rest as [|s rest]; cbn.
    + exists NUL, tail. auto.
    + eexists _, _. split; reflexivity.
  - exists a, (l ++ join_tail rest ++ NUL :: tail). auto.
Qed.

(** *** The whole loop on a well-formed line *)

(** Push [length] through appends and conses. *)
Ltac list_len :=
  repeat first [rewrite length_app | progress (cbn [List.length])].

Lemma parse_segments : forall rest seg pre env fuel tail actual,
  Forall segment_char seg -> Forall (Forall segment_char) rest ->
  actual = (Z.of_nat (List.length (pre ++ seg ++ join_tail rest)) + 1)%Z ->
  (List.length rest < fuel)%nat ->
  parse_loop fuel (pre ++ seg ++ join_tail rest ++ NUL :: tail) actual
             (List.length pre) env
  = Done (env ++ imported seg rest).
Proof.
  induction rest as [|s rest IH];
    intros seg pre env fuel tail actual Hseg Hrest Hact Hfuel;
    (destruct fuel as [|fuel]; [simpl in Hfuel; lia|]);
    cbn [parse_loop];
    (replace (Z.of_nat (List.length pre) <? actual)%Z with true
      by (symmetry; apply Z.ltb_lt; rewrite Hact, !length_app; lia)).
  - (* the last segment *)
    cbn [join_tail flat_map app].
    unfold grub_strchr at 1. rewrite skipn_app_length.
    rewrite scan_token; [|exact Hseg|discriminate].
    destruct (assign_step fuel pre seg tail actual (Z.to_nat actual) env Hseg)
      as (seg' & Hlen & Hstep).
    etransitivity; [exact Hstep|].
    rewrite parse_loop_done by lia.
    unfold imported. cbn [flat_map]. now rewrite app_nil_r.
  - (* a segment followed by a semicolon *)
    inversion Hrest as [|s' rest' Hs Hrest']; subst s' rest'.
    cbn [join_tail flat_map]. fold (join_tail rest).
    rewrite <- (app_assoc (";" :: s)). cbn [app].
    unfold grub_strchr at 1. rewrite skipn_app_length.
    rewrite scan_hit by exact Hseg.
    rewrite store_app, store_at.
    replace (List.length pre + (List.length pre + List.length seg - List.length pre) + 1)%nat
      with (List.length (pre ++ seg ++ [NUL]))
      by (list_len; lia).
    destruct (lstrip_split s) as (ws & Hsplit & Hws & Hhead).
    destruct (next_not_space (lstrip s) rest tail Hhead) as (a & x & Hnext & Ha).
    assert (Hs' : forall R, s ++ R = ws ++ lstrip s ++ R)
      by (intros R; now rewrite app_assoc, <- Hsplit).
    replace (pre ++ seg ++ NUL :: s ++ join_tail rest ++ NUL :: tail)
      with ((pre ++ seg ++ [NUL]) ++ ws ++ a :: x) at 1.
    2:{ rewrite <- Hnext, Hs', <- !app_assoc. reflexivity. }
    rewrite skipn_app_length, skip_space_stop by assumption.
    destruct (assign_step fuel pre seg (s ++ join_tail rest ++ NUL :: tail)
                actual
                (List.length (pre ++ seg ++ [NUL]) + List.length ws)%nat
                env Hseg)
      as (seg' & Hlen & Hstep).
    etransitivity; [exact Hstep|].
    replace (pre ++ seg' ++ NUL :: s ++ join_tail rest ++ NUL :: tail)
      with ((pre ++ seg' ++ NUL :: ws) ++ lstrip s ++ join_tail rest
            ++ NUL :: tail).
    2:{ rewrite Hs', <- !app_assoc. reflexivity. }
    replace (List.length (pre ++ seg ++ [NUL]) + List.length ws)%nat
      with (List.length (pre ++ seg' ++ NUL :: ws))
      by (list_len; lia).
    rewrite IH.
    + unfold imported. cbn [flat_map]. now rewrite <- !app_assoc.
    + now apply lstrip_segment.
    + exact Hrest'.
    + rewrite Hact. f_equal. f_equal.
      assert (Hls : List.length s
                    = (List.length ws + List.length (lstrip s))%nat)
        by (rewrite Hsplit at 1; apply length_app).
      cbn [join_tail flat_map]. fold (join_tail rest). list_len. lia.
    + simpl in Hfuel. lia.
Qed.

Lemma join_tail_length rest :
  (List.length rest <= List.length (join_tail rest))%nat.
Proof.
  unfold join_tail.
  induction rest as [|s rest IH]; cbn [flat_map app]; list_len; lia.
Qed.

(** X15: on a well-formed bootargs line (segments without NUL, separated
    by semicolons, ended by the terminator, with the reported length that
    of the line and its terminator) grub_parse_cmdline sets, in order, the
    variable of every segment that holds an equals sign: the name is the
    text before the first equals sign, the value the text after it; the
    segments behind a semicolon lose their leading white space, the first
    segment does not; segments without an equals sign set nothing. *)
Theorem bootargs_line_import seg rest tail env :
  Forall segment_char seg -> Forall (Forall segment_char) rest ->
  grub_parse_cmdline
    (Some ((seg ++ join_tail rest) ++ NUL :: tail,
           (Z.of_nat (List.length (seg ++ join_tail rest)) + 1)%Z)) env
  = Done (env ++ imported seg rest).
Proof.
  intros Hseg Hrest. unfold grub_parse_cmdline.
  destruct (Z.of_nat (List.length (seg ++ join_tail rest)) + 1 >? 1)%Z eqn:E.
  - rewrite <- app_assoc.
    apply (parse_segments rest seg [] env _ tail _ Hseg Hrest); [reflexivity|].
    pose proof (join_tail_length rest). rewrite length_app. lia.
  - rewrite Z.gtb_ltb in E. apply Z.ltb_ge in E.
    assert (Hnil : seg ++ join_tail rest = [])
      by (apply length_zero_iff_nil; lia).
    apply app_eq_nil in Hnil. destruct Hnil as [-> Hj].
    destruct rest as [|s rest]; [|discriminate].
    cbn. now rewrite app_nil_r.
Qed.

Lemma bootargs_line_import_witness :
  grub_parse_cmdline
    (Some (buffer_of "root=/dev/sda1;  debug;a=b=c; =x;" [" "; "z"], 34%Z)) []
  = Done [("root", "/dev/sda1"); ("a", "b=c"); ("", "x")]%string.
Proof.
  apply (bootargs_line_import
           (list_ascii_of_string "root=/dev/sda1")
           [list_ascii_of_string "  debug"; list_ascii_of_string "a=b=c";
            list_ascii_of_string " =x"; []]
           [" "; "z"] []).
  - unfold segment_char. repeat constructor; discriminate.
  - unfold segment_char. repeat constructor; discriminate.
Defined.

(** *** What the loop never does *)

Lemma parse_loop_appends : forall fuel args actual i env env',
  parse_loop fuel args actual i env = Done env' ->
  exists more, env' = env ++ more.
Proof.
  induction fuel as [|fuel IH]; intros args actual i env env' H;
    cbn [parse_loop] in H;
    (destruct (Z.of_nat i <? actual)%Z;
     [|inversion H; subst; exists []; now rewrite app_nil_r]);
    [discriminate|].
  assert (Hstep : forall args' i',
             match grub_strchr args' i "=" with
             | None => OutOfBounds
             | Some None => parse_loop fuel args' actual i' env
             | Some (Some val) =>
                 let args := store args' val NUL in
                 match cstring_at args i, cstring_at args (S val) with
                 | Some name, Some value =>
                     parse_loop fuel args actual i'
                                (grub_env_set name value env)
                 | _, _ => OutOfBounds
                 end
             end = Done env' ->
             exists more, env' = env ++ more).
  { intros args' i' H'.
    destruct (grub_strchr args' i "=") as [[val|]|]; [| |discriminate].
    - cbv zeta in H'. destruct (cstring_at _ i) as [name|]; [|discriminate].
      destruct (cstring_at _ (S val)) as [value|]; [|discriminate].
      apply IH in H'. destruct H' as [more ->].
      exists ((name, value) :: more). unfold grub_env_set.
      now rewrite <- app_assoc.
    - now apply IH in H'. }
  destruct (grub_strchr args i ";") as [[e|]|]; [| |discriminate].
  - destruct (skip_space _ _) as [i'|]; [|discriminate].
    now apply Hstep in H.
  - now apply Hstep in H.
Qed.

Lemma grub_parse_cmdline_appends bootargs env env' :
  grub_parse_cmdline bootargs env = Done env' ->
  exists more, env' = env ++ more.
Proof.
  intros H. unfold grub_parse_cmdline in H.
  destruct bootargs as [[args actual]|].
  - destruct (actual >? 1)%Z; [now apply parse_loop_appends in H|].
    inversion H; subst. exists []. now rewrite app_nil_r.
  - inversion H; subst. exists []. now rewrite app_nil_r.
Qed.



Lemma scan_runs_off l c : forall k,
  Forall (fun a => a <> c /\ a <> NUL) l -> scan l c k = None.
Proof.
  induction l as [|a l IH]; intros k H; cbn [scan]; [reflexivity|].
  inversion H as [|a' l' [Ha1 Ha2] Hl]; subst.
  destruct (Ascii.eqb a c) eqn:E1; [apply Ascii.eqb_eq in E1; contradiction|].
  destruct (Ascii.eqb a NUL) eqn:E2; [apply Ascii.eqb_eq in E2; contradiction|].
  now apply IH.
Qed.

(** X17: when the array args holds neither a semicolon nor a terminator,
    as when the firmware fills all of it with a longer property, the first
    search for a semicolon reads past the end of the array. *)
Theorem unterminated_buffer_overrun args actual env :
  (1 < actual)%Z ->
  Forall segment_char args ->
  grub_parse_cmdline (Some (args, actual)) env = OutOfBounds.
Proof.
  intros Hact Hargs. unfold grub_parse_cmdline.
  replace (actual >? 1)%Z with true
    by (symmetry; rewrite Z.gtb_ltb; apply Z.ltb_lt; lia).
  destruct (Z.to_nat actual) as [|fuel] eqn:Ef; [lia|].
  cbn [parse_loop].
  replace (Z.of_nat 0 <? actual)%Z with true
    by (symmetry; apply Z.ltb_lt; lia).
  unfold grub_strchr. cbn [skipn].
  now rewrite (scan_runs_off args ";" 0%nat Hargs).
Qed.

Lemma unterminated_buffer_overrun_witness :
  grub_parse_cmdline (Some (list_ascii_of_string "quiet splash", 300%Z)) []
  = OutOfBounds.
Proof.
  apply unterminated_buffer_overrun.
  - lia.
  - unfold segment_char. repeat constructor; discriminate.
Defined.
End CmdlineMore.

(** ** The init sequence *)

Module InitFacts.
Import Init.

(** X18: in grub_machine_init the secure-boot probe runs after the import
    of the bootargs.  When the init sequence completes, the environment is
    the one it found, then the variables set by the bootargs, then, if the
    property read succeeded with a level of 2 or more,
    check_appended_signatures=forced as the last write; with a failed read
    or a level below 2 the probe writes nothing. *)
Theorem secure_boot_has_last_word w m env0 b :
  grub_machine_init w m env0 = Cmdline.Done b ->
  exists set_by_bootargs,
    Cmdline.grub_parse_cmdline (bootargs w) env0
    = Cmdline.Done (env0 ++ set_by_bootargs)
    /\ (0 <= fst (secure_boot w) /\ 2 <= snd (secure_boot w) ->
        env b = env0 ++ set_by_bootargs
                ++ [("check_appended_signatures", "forced")%string])
    /\ (fst (secure_boot w) < 0 \/ snd (secure_boot w) < 2 ->
        env b = env0 ++ set_by_bootargs).
Proof.
  unfold grub_machine_init. cbv zeta.
  destruct (Heap.grub_claim_heap (firmware w) (memory_map w) m) as [u m'].
  destruct (Cmdline.grub_parse_cmdline (bootargs w) env0) as [env1| |] eqn:Ep;
    try discriminate.
  intros H. injection H as <-. cbn [env].
  destruct (CmdlineMore.grub_parse_cmdline_appends _ _ _ Ep) as [more ->].
  exists more. split; [reflexivity|].
  unfold grub_get_ieee1275_secure_boot.
  destruct (secure_boot w) as [rc is_sb]. cbn [fst snd].
  unfold Cmdline.grub_env_set. rewrite !Z.geb_leb.
  split.
  - intros [Hrc Hsb].
    replace (0 <=? rc) with true by (symmetry; apply Z.leb_le; lia).
    replace (2 <=? is_sb) with true by (symmetry; apply Z.leb_le; lia).
    cbn [andb]. now rewrite app_assoc.
  - intros [Hrc|Hsb].
    + replace (0 <=? rc) with false by (symmetry; apply Z.leb_gt; lia).
      reflexivity.
    + replace (2 <=? is_sb) with false by (symmetry; apply Z.leb_gt; lia).
      now rewrite andb_false_r.
Qed.

Lemma secure_boot_has_last_word_witness :
  exists b,
    grub_machine_init
      (sample_world "check_appended_signatures=no;debug=all" 2)
      Heap.empty_machine [] = Cmdline.Done b
    /\ env b = [("check_appended_signatures", "no"); ("debug", "all");
                ("check_appended_signatures", "forced")]%string.
Proof.
  destruct (grub_machine_init
              (sample_world "check_appended_signatures=no;debug=all" 2)
              Heap.empty_machine []) as [b| |] eqn:E;
    [|vm_compute in E; discriminate|vm_compute in E; discriminate].
  exists b. split; [reflexivity|].
  destruct (secure_boot_has_last_word _ _ _ _ E) as (more & Hp & Hforced & _).
  vm_compute in Hp. injection Hp as <-.
  rewrite Hforced; [reflexivity|]. cbn. lia.
Defined.
End InitFacts.
